(** * Contour hierarchy to closed curves: a model of [src/model_from_contours.py]

    The development embeds the curve reconstruction of
    [build_model_from_contours] (border filter, curve builder, hierarchy
    loops) and proves the properties stated for it.

    Python integers are [Z]; Python floats are binary64 and are modelled by
    the primitive floats of Rocq; lists are lists; an exception is a value of
    [exn] carried by [result]. *)

From Stdlib Require Import ZArith Lia Bool List Sorted.
From Stdlib Require Import Floats.PrimFloat Floats.SpecFloat Floats.FloatOps.
From stdpp Require Import base list.

Local Open Scope Z_scope.

(** ** Exceptions and results *)

(** The exceptions the modelled statements can raise: [x / 0] on integers,
    an integer quotient too large for a float, a slice with step zero, an
    index outside a sequence, and the [RuntimeError] of the first stage when
    no contour is found. *)
Inductive exn : Type :=
  | ZeroDivisionError
  | OverflowError
  | ValueError
  | IndexError
  | RuntimeError.

Inductive result (A : Type) : Type :=
  | Ok (a : A)
  | Raise (e : exn).

Arguments Ok {A} a.
Arguments Raise {A} e.

#[export] Instance result_ret : MRet result := fun _ a => Ok a.

#[export] Instance result_bind : MBind result := fun _ _ f r =>
  match r with
  | Ok a => f a
  | Raise e => Raise e
  end.

(** ** Data model *)

(** A pixel position [[x, y]] of the contours JSON. *)
Definition point : Type := Z * Z.

(** One entry of [data["contours"]]: [{"points": ..., "parent": ...}];
    [parent] is [-1] for a contour that has no parent. *)
Record contour : Type := Contour {
  points : list point;
  parent : Z
}.

(** The JSON document loaded by [build_model_from_contours]. *)
Record contour_data : Type := ContourData {
  width : Z;
  height : Z;
  contours : list contour
}.

(** The [co] of a spline point: [(xw, yw, 0.0, 1.0)]. *)
Definition co : Type := float * float * float * float.

(** A spline of the curve datablock: its points and its cyclic flag. *)
Record spline : Type := Spline {
  spline_points : list co;
  use_cyclic_u : bool
}.

(** [curve_data.splines]. *)
Definition curve : Type := list spline.

(** [bpy.data.curves]: the curve datablocks of the Blender session. *)
Abbreviation bpy_curves := (list curve).

(** ** Python primitives used by the source *)

(** [enumerate(l)], counting from [n]. *)
Fixpoint enumerate_from {A : Type} (n : nat) (l : list A) : list (nat * A) :=
  match l with
  | [] => []
  | x :: t => (n, x) :: enumerate_from (S n) t
  end.

Definition enumerate {A : Type} (l : list A) : list (nat * A) :=
  enumerate_from 0 l.

(** [l[i]] for an index [i >= 0]. *)
Definition getitem {A : Type} (l : list A) (i : nat) : result A :=
  match l !! i with
  | Some x => Ok x
  | None => Raise IndexError
  end.

(** [l[i] = x] for an index [i >= 0]. *)
Definition setitem {A : Type} (l : list A) (i : nat) (x : A) : result (list A) :=
  if decide (i < length l)%nat then Ok (<[i := x]> l) else Raise IndexError.

(** Keeps the element met when [skip] is [0], then leaves out [gap] elements
    before the next one kept. *)
Fixpoint stride {A : Type} (gap skip : nat) (l : list A) : list A :=
  match l with
  | [] => []
  | x :: t =>
      match skip with
      | O => x :: stride gap gap t
      | S s => stride gap s t
      end
  end.

(** The countdown of [stride] to the next element kept, one element
    further on, and [n] elements further on. *)
Definition tick (gap skip : nat) : nat :=
  match skip with
  | O => gap
  | S s => s
  end.

Fixpoint phase (gap skip n : nat) : nat :=
  match n with
  | O => skip
  | S n' => phase gap (tick gap skip) n'
  end.

(** The extended slice [l[::step]]: every [step]-th element from the first
    one on for a positive step, every [|step|]-th element from the last one
    backwards for a negative step, [ValueError] for step zero. *)
Definition slice_step {A : Type} (l : list A) (step : Z) : result (list A) :=
  if step =? 0 then Raise ValueError
  else if 0 <? step then Ok (stride (Z.to_nat step - 1) 0 l)
  else Ok (stride (Z.to_nat (- step) - 1) 0 (rev l)).

(** An integer as an unrounded binary number: its magnitude is the
    mantissa and the exponent is zero. *)
Definition SF_of_Z (z : Z) : spec_float :=
  match z with
  | Z0 => S754_zero false
  | Zpos p => S754_finite false p 0
  | Zneg p => S754_finite true p 0
  end.

(** The exact quotient of two integers rounded once to binary64 (round to
    nearest, ties to even); a zero dividend takes the sign of the quotient,
    as in [0 / -5 = -0.0]. *)
Definition int_quotient (a b : Z) : spec_float :=
  SFdiv prec emax (SF_of_Z a) (SF_of_Z b).

Definition rounded_quotient (a b : Z) : float := SF2Prim (int_quotient a b).

(** The least magnitude that rounds to [2^1024]: the midpoint of the
    largest float and [2^1024]. *)
Definition overflow_threshold : Z := 2 ^ 1024 - 2 ^ 970.

(** [a / b] on two Python integers: [ZeroDivisionError] for a zero
    divisor, [OverflowError] when the rounded quotient is not a finite
    float, which is when the exact quotient reaches [overflow_threshold] in
    magnitude, and the correctly rounded quotient otherwise. *)
Definition int_truediv (a b : Z) : result float :=
  if b =? 0 then Raise ZeroDivisionError
  else if overflow_threshold * Z.abs b <=? Z.abs a then Raise OverflowError
  else Ok (rounded_quotient a b).

(** ** Border filter *)

(** The loop of [touches_border] over [cnt["points"]], with its early
    return. *)
Fixpoint touches_border_points (pts : list point) (w h margin : Z) : bool :=
  match pts with
  | [] => false
  | (x, y) :: rest =>
      if (x <=? margin) || (y <=? margin) || (x >=? w - margin) || (y >=? h - margin)
      then true
      else touches_border_points rest w h margin
  end.

Definition touches_border (cnt : contour) (w h margin : Z) : bool :=
  touches_border_points (points cnt) w h margin.

(** The value of the keyword argument [margin] when it is not passed. *)
Definition default_margin : Z := 2.

(** The comprehension that selects the top-level contours, for a given
    margin of the border test. *)
Definition top_indices_at (margin : Z) (data : contour_data) : list nat :=
  map fst
    (List.filter
       (fun ic : nat * contour =>
          (parent ic.2 =? -1)
          && negb (touches_border ic.2 (width data) (height data) margin))
       (enumerate (contours data))).

(** [top_indices] as the source computes it: [touches_border] is called
    without [margin]. *)
Definition top_indices (data : contour_data) : list nat :=
  top_indices_at default_margin data.

(** ** Curve builder *)

Section Blender.

(** The coordinates Blender gives to a spline point it has just allocated;
    the library is not part of the repository, so they are left open. *)
Variable blank : co.

(** The curve datablocks of the session Blender starts from its factory
    settings, left open for the same reason. *)
Variable factory : bpy_curves.

(** [curve_data.splines.new("POLY")]: a new spline holds one point. *)
Definition spline_new : spline := Spline [blank] false.

(** [spline.points.add(n)]. *)
Definition points_add (s : spline) (n : Z) : spline :=
  Spline (spline_points s ++ replicate (Z.to_nat n) blank) (use_cyclic_u s).

(** [spline.points[i].co = c]. *)
Definition set_co (s : spline) (i : nat) (c : co) : result spline :=
  pts ← setitem (spline_points s) i c;
  Ok (Spline pts (use_cyclic_u s)).

(** [spline.use_cyclic_u = True]. *)
Definition set_cyclic (s : spline) : spline :=
  Spline (spline_points s) true.

Section Closure.

(** The variables [add_bezier_spline] captures from the enclosing call. *)
Variables (width height : Z) (scale : float).

(** The body of the loop over [enumerate(points)]: the world coordinates
    of one pixel position. *)
Definition world_co (p : point) : result co :=
  u ← int_truediv p.1 (width - 1);
  v ← int_truediv p.2 (height - 1);
  let xw := ((u - 0.5) * scale)%float in
  let yw := ((0.5 - v) * scale)%float in
  Ok (xw, yw, 0%float, 1%float).

(** [for i, (x, y) in enumerate(points): ... spline.points[i].co = ...]. *)
Fixpoint fill_points (s : spline) (ipts : list (nat * point)) : result spline :=
  match ipts with
  | [] => Ok s
  | (i, p) :: rest =>
      c ← world_co p;
      s' ← set_co s i c;
      fill_points s' rest
  end.

(** The point sequence after the [reverse] and [step] statements. *)
Definition prepare_points (pts : list point) (reverse : bool) (step : Z)
  : result (list point) :=
  let pts := if reverse then rev pts else pts in
  if 1 <? step then slice_step pts step else Ok pts.

(** [add_bezier_spline(points, reverse, step)], acting on [curve_data].
    The new spline is written to [curve_data] once it is complete: it is
    reachable only through the local name [spline] while it is filled, and
    an exception ends the whole call. *)
Definition add_bezier_spline (pts : list point) (reverse : bool) (step : Z)
    (curve_data : curve) : result curve :=
  pts ← prepare_points pts reverse step;
  if (length pts <? 3)%nat then Ok curve_data
  else
    let s := spline_new in
    let s := points_add s (Z.of_nat (length pts) - 1) in
    s ← fill_points s (enumerate pts);
    Ok (curve_data ++ [set_cyclic s]).

End Closure.

(** ** Hierarchy loops *)

(** [for j, c in enumerate(contours): if c["parent"] == i: ...]. *)
Fixpoint hole_loop (data : contour_data) (scale : float) (step : Z) (i : nat)
    (jcs : list (nat * contour)) (curve_data : curve) : result curve :=
  match jcs with
  | [] => Ok curve_data
  | (j, c) :: rest =>
      cd ← (if parent c =? Z.of_nat i
            then add_bezier_spline (width data) (height data) scale
                   (points c) true step curve_data
            else Ok curve_data);
      hole_loop data scale step i rest cd
  end.

(** [for i in top_indices: ...]. *)
Fixpoint outer_loop (data : contour_data) (scale : float) (step : Z)
    (tops : list nat) (curve_data : curve) : result curve :=
  match tops with
  | [] => Ok curve_data
  | i :: rest =>
      outer ← getitem (contours data) i;
      cd ← add_bezier_spline (width data) (height data) scale
             (points outer) false step curve_data;
      cd ← hole_loop data scale step i (enumerate (contours data)) cd;
      outer_loop data scale step rest cd
  end.

(** The curve group of one run: the splines of the datablock the run
    creates, which starts without splines. *)
Definition build_curves (data : contour_data) (scale : float) (bezier_step : Z)
  : result curve :=
  outer_loop data scale bezier_step (top_indices data) [].

(** [bpy.ops.wm.read_factory_settings(use_empty=False)]: whatever the
    session held is replaced by the factory session. *)
Definition read_factory_settings (session : bpy_curves) : bpy_curves :=
  factory.

(** [bpy.ops.object.select_all(action="SELECT")] and
    [bpy.ops.object.delete()]: the objects of the scene are removed; the
    datablocks of [bpy.data.curves] are not objects and stay. *)
Definition delete_all_objects (session : bpy_curves) : bpy_curves :=
  session.

(** [bpy.data.curves.new(...)]: a datablock without splines joins the
    session; its position is the handle [curve_data]. *)
Definition curves_new (session : bpy_curves) : nat * bpy_curves :=
  (length session, session ++ [[]]).

(** The effect of [build_model_from_contours] on the curve datablocks of
    the session it is run in: the reset of the scene, the new datablock
    and the loops that fill it.  The result is the handle of the datablock
    and the session after the run. *)
Definition build_model_from_contours (data : contour_data) (scale : float)
    (bezier_step : Z) (session : bpy_curves) : result (nat * bpy_curves) :=
  let session := read_factory_settings session in
  let session := delete_all_objects session in
  let '(h, session) := curves_new session in
  cd0 ← getitem session h;
  cd ← outer_loop data scale bezier_step (top_indices data) cd0;
  Ok (h, <[h := cd]> session).

End Blender.

(** ** The statements in the words of the specification *)

(** World coordinates of a pixel position by the stated formulas:
    [u = x/(width-1)], [v = y/(height-1)], [xw = (u - 0.5) * scale],
    [yw = (0.5 - v) * scale]. *)
Definition to_world (width height : Z) (scale : float) (p : point) : co :=
  let u := rounded_quotient p.1 (width - 1) in
  let v := rounded_quotient p.2 (height - 1) in
  (((u - 0.5) * scale)%float, ((0.5 - v) * scale)%float, 0%float, 1%float).

(** A coordinate whose quotient by any integer other than zero is a finite
    float, and a contour set of such coordinates. *)
Definition in_float_range (p : point) : Prop :=
  Z.abs p.1 < overflow_threshold /\ Z.abs p.2 < overflow_threshold.

Definition coordinates_in_range (data : contour_data) : Prop :=
  Forall (fun c => Forall in_float_range (points c)) (contours data).

(** Every [step]-th element in the original order, the first one
    included; all of them for a step of at most one. *)
Definition every_nth {A : Type} (step : Z) (l : list A) : list A :=
  stride (Z.to_nat step - 1) 0 l.

(** A point lies within [margin] of the image border. *)
Definition near_border (w h margin : Z) (p : point) : Prop :=
  p.1 <= margin \/ p.2 <= margin \/ p.1 >= w - margin \/ p.2 >= h - margin.

(** Index [i] is an eligible top-level contour for the margin: it has no
    parent and does not touch the border. *)
Definition eligible_at (margin : Z) (data : contour_data) (i : nat) : bool :=
  match contours data !! i with
  | Some c =>
      (parent c =? -1) && negb (touches_border c (width data) (height data) margin)
  | None => false
  end.

Definition eligible (data : contour_data) (i : nat) : bool :=
  eligible_at default_margin data i.

(** Contour [j] names [i] as its parent. *)
Definition child_of (data : contour_data) (i j : nat) : bool :=
  match contours data !! j with
  | Some c => parent c =? Z.of_nat i
  | None => false
  end.

(** The eligible indices, and the direct children of an index, both in the
    original order of the contour set. *)
Definition eligible_indices (data : contour_data) : list nat :=
  List.filter (eligible data) (seq 0 (length (contours data))).

Definition children (data : contour_data) (i : nat) : list nat :=
  List.filter (child_of data i) (seq 0 (length (contours data))).

(** The curves to build, in order: each eligible index with
    [reverse = false], followed by its children with [reverse = true]. *)
Definition emission_plan (data : contour_data) : list (nat * bool) :=
  flat_map
    (fun i => (i, false) :: map (fun j => (j, true)) (children data i))
    (eligible_indices data).

(** The hierarchy conditions named by the specification. *)
Definition parent_in_range (data : contour_data) (c : contour) : bool :=
  (parent c =? -1)
  || ((0 <=? parent c) && (parent c <? Z.of_nat (length (contours data)))).

Definition parent_out_of_range (data : contour_data) : bool :=
  existsb (fun c => negb (parent_in_range data c)) (contours data).

(** The contour reached from index [i] after [n] parent steps, if any. *)
Fixpoint ancestor (data : contour_data) (n : nat) (i : Z) : option Z :=
  match n with
  | O => Some i
  | S n' =>
      if i <? 0 then None
      else match contours data !! Z.to_nat i with
           | Some c => ancestor data n' (parent c)
           | None => None
           end
  end.

(** A parent chain that is still inside the set after as many steps as
    there are contours runs through a cycle. *)
Definition parent_cycle (data : contour_data) : bool :=
  existsb
    (fun i => match ancestor data (S (length (contours data))) (Z.of_nat i) with
              | Some _ => true
              | None => false
              end)
    (seq 0 (length (contours data))).

(** Some contour has a parent that has a parent itself. *)
Definition nesting_exceeds_two (data : contour_data) : bool :=
  existsb
    (fun i => match ancestor data 2 (Z.of_nat i) with
              | Some p => negb (p =? -1)
              | None => false
              end)
    (seq 0 (length (contours data))).

Definition malformed_hierarchy (data : contour_data) : bool :=
  parent_out_of_range data || parent_cycle data || nesting_exceeds_two data.

(** The configurations the specification calls invalid. *)
Definition invalid_configuration (data : contour_data) (scale : float) (step : Z)
  : bool :=
  (width data <=? 1) || (height data <=? 1) || (scale <=? 0)%float || (step <=? 0).

(** ** Concrete inputs *)

(** The all-zero coordinates, one possible content of a fresh point. *)
Definition zero_co : co := (0, 0, 0, 0)%float.

(** Scenario A: a square whose corners lie on the margin. *)
Definition scenario_A : contour_data :=
  ContourData 10 10 [Contour [(2, 2); (2, 7); (7, 7); (7, 2)] (-1)].

(** Scenario B: a square clear of the border. *)
Definition scenario_B : contour_data :=
  ContourData 10 10 [Contour [(3, 3); (3, 6); (6, 6); (6, 3)] (-1)].

(** The curve group of scenario B for scale 2: one closed spline of the
    four corners. *)
Definition scenario_B_group : curve :=
  [Spline (map (to_world 10 10 2) [(3, 3); (3, 6); (6, 6); (6, 3)]) true].

(** Scenario D: a top-level contour of five points, clear of the border. *)
Definition scenario_D : contour_data :=
  ContourData 10 10 [Contour [(3, 3); (3, 6); (5, 7); (6, 6); (6, 3)] (-1)].

(** Six points, to be subsampled with step two. *)
Definition hexagon : list point :=
  [(3, 3); (3, 5); (3, 7); (7, 7); (7, 5); (7, 3)].

(** A square with a second contour whose parent index is outside the set. *)
Definition stray_parent : contour_data :=
  ContourData 10 10
    [Contour [(3, 3); (3, 6); (6, 6); (6, 3)] (-1);
     Contour [(4, 4); (4, 5); (5, 5)] 7].

(** A square with two contours that name each other as parent. *)
Definition parent_loop : contour_data :=
  ContourData 10 10
    [Contour [(3, 3); (3, 6); (6, 6); (6, 3)] (-1);
     Contour [(4, 4); (4, 5); (5, 5)] 2;
     Contour [(4, 4); (4, 5); (5, 5)] 1].

(** A square, a hole in it, and a contour inside the hole. *)
Definition three_levels : contour_data :=
  ContourData 10 10
    [Contour [(3, 3); (3, 6); (6, 6); (6, 3)] (-1);
     Contour [(4, 4); (4, 5); (5, 5)] 0;
     Contour [(4, 4); (4, 5); (5, 5)] 1].

(** Width and height zero: a top-level contour without points and a
    child of three points. *)
Definition zero_size : contour_data :=
  ContourData 0 0
    [Contour [] (-1);
     Contour [(1, 1); (2, 1); (2, 2)] 0].

(** Width and height one, with the same contours. *)
Definition unit_size : contour_data :=
  ContourData 1 1
    [Contour [] (-1);
     Contour [(1, 1); (2, 1); (2, 2)] 0].

(** A square with a hole that has a point on the border of the image. *)
Definition border_hole : contour_data :=
  ContourData 10 10
    [Contour [(3, 3); (3, 6); (6, 6); (6, 3)] (-1);
     Contour [(0, 4); (4, 5); (5, 5)] 0].

Section Plan.

Variable blank : co.
Variables (data : contour_data) (scale : float) (step : Z).

(** Builds the curves of a plan one after the other. *)
Fixpoint run_plan (plan : list (nat * bool)) (curve_data : curve) : result curve :=
  match plan with
  | [] => Ok curve_data
  | (k, reverse) :: rest =>
      c ← getitem (contours data) k;
      cd ← add_bezier_spline blank (width data) (height data) scale
             (points c) reverse step curve_data;
      run_plan rest cd
  end.

End Plan.

(** The world coordinates of a whole point sequence, in order. *)
Fixpoint world_all (w h : Z) (scale : float) (pts : list point)
  : result (list co) :=
  match pts with
  | [] => Ok []
  | p :: rest =>
      c ← world_co w h scale p;
      cs ← world_all w h scale rest;
      Ok (c :: cs)
  end.

(** ** The curve group in closed form *)

(** The spline a call of [add_bezier_spline] adds for a point sequence, if
    it adds one. *)
Definition curve_of (w h : Z) (scale : float) (step : Z) (pts : list point)
    (reverse : bool) : option spline :=
  let pts' := every_nth step (if reverse then rev pts else pts) in
  if (length pts' <? 3)%nat then None
  else Some (Spline (map (to_world w h scale) pts') true).

(** The spline of one entry of the plan, if the contour exists and is not
    degenerate. *)
Definition planned_curve (data : contour_data) (scale : float) (step : Z)
    (kr : nat * bool) : option spline :=
  c ← contours data !! kr.1;
  curve_of (width data) (height data) scale step (points c) kr.2.

Definition planned_curves (data : contour_data) (scale : float) (step : Z)
  : list spline :=
  omap (planned_curve data scale step) (emission_plan data).

(** A spline is closed and lies in the plane [z = 0] with weights [1]. *)
Definition closed_planar (s : spline) : Prop :=
  use_cyclic_u s = true
  /\ Forall (fun c : co => c.1.2 = 0%float /\ c.2 = 1%float) (spline_points s).

(** ** Contour extraction ([src/image_prep.py]) *)

(** A row of the hierarchy array of [cv2.findContours]:
    [[next, previous, first_child, parent]]. *)
Record hierarchy_row : Type := HierarchyRow {
  h_next : Z;
  h_previous : Z;
  h_first_child : Z;
  h_parent : Z
}.

(** The loop of [prepare_image_with_contours] over [enumerate(contours)]
    with [data["contours"]] as accumulator.  A contour array of shape
    [(n, 1, 2)] is the list of its [n] positions, which is what
    [cnt[:, 0, :].tolist()] yields; [h[i][3]] is the parent entry of row
    [i], and [h[i]] raises [IndexError] when there is no such row. *)
Fixpoint collect_loop (h : list hierarchy_row) (icnts : list (nat * list point))
    (acc : list contour) : result (list contour) :=
  match icnts with
  | [] => Ok acc
  | (i, cnt) :: rest =>
      let pts := cnt in
      row ← getitem h i;
      let parent := h_parent row in
      collect_loop h rest (acc ++ [Contour pts parent])
  end.

(** The dictionary [data] that is written to [contours.json], from the
    shape [(rows, columns)] of the binary image, the contours and
    [hierarchy[0]]. *)
Definition collect_contours (shape : Z * Z) (cnts : list (list point))
    (h : list hierarchy_row) : result contour_data :=
  cs ← collect_loop h (enumerate cnts) [];
  Ok (ContourData shape.2 shape.1 cs).

(** ** The pipeline ([src/main.py]) *)

(** [run_pipeline] passes neither [scale] nor [bezier_step] to
    [build_model_from_contours], which then takes its defaults. *)
Definition default_scale : float := 2%float.

Definition default_bezier_step : Z := 1.

(** The end of [prepare_image_with_contours], from the result of
    [cv2.findContours] on: the check of [hierarchy], which is [None] when
    no contour was found and is given otherwise by its only plane
    [hierarchy[0]], and the loop that fills [data]. *)
Definition contours_json (shape : Z * Z) (cnts : list (list point))
    (hierarchy : option (list hierarchy_row)) : result contour_data :=
  match hierarchy with
  | None => Raise RuntimeError
  | Some h => collect_contours shape cnts h
  end.

(** The curve group [run_pipeline] builds from what [cv2.findContours]
    returned in the first stage, once the image has been read; the JSON
    file carries [data] from one stage to the other unchanged, and an
    exception of the first stage ends the pipeline. *)
Definition pipeline_curves (blank : co) (shape : Z * Z)
    (cnts : list (list point)) (hierarchy : option (list hierarchy_row))
  : result curve :=
  data ← contours_json shape cnts hierarchy;
  build_curves blank data default_scale default_bezier_step.

(** * Proofs *)

(** ** The result monad *)

Lemma bind_Ok_inv {A B : Type} (f : A -> result B) (r : result A) (b : B) :
  r ≫= f = Ok b -> exists a, r = Ok a /\ f a = Ok b.
Proof. destruct r as [a|e]; simpl; [eauto | discriminate]. Qed.

(** ** Item access *)

Lemma getitem_Ok {A : Type} (l : list A) (i : nat) (x : A) :
  getitem l i = Ok x <-> l !! i = Some x.
Proof. unfold getitem. destruct (l !! i); split; congruence. Qed.

Lemma getitem_lt {A : Type} (l : list A) (i : nat) :
  (i < length l)%nat -> exists x, getitem l i = Ok x /\ l !! i = Some x.
Proof.
  intros Hi. destruct (lookup_lt_is_Some_2 l i Hi) as [x Hx].
  exists x. split; [by apply getitem_Ok | done].
Qed.

(** ** Division of integers *)

(** Closes a goal that concrete coordinates are within the range. *)
Ltac in_range :=
  repeat first [reflexivity | constructor].

Lemma overflow_threshold_pos : 0 < overflow_threshold.
Proof. reflexivity. Qed.

Lemma int_truediv_Ok (a b : Z) :
  b <> 0 -> Z.abs a < overflow_threshold ->
  int_truediv a b = Ok (rounded_quotient a b).
Proof.
  intros Hb Ha. unfold int_truediv.
  destruct (Z.eqb_spec b 0) as [E|_]; [done|].
  destruct (Z.leb_spec (overflow_threshold * Z.abs b) (Z.abs a)) as [Hbig|_];
    [|done].
  pose proof overflow_threshold_pos as Hpos.
  assert (overflow_threshold * 1 <= overflow_threshold * Z.abs b)
    by (apply Z.mul_le_mono_nonneg_l; lia).
  lia.
Qed.

Lemma int_truediv_Ok_inv (a b : Z) (u : float) :
  int_truediv a b = Ok u -> u = rounded_quotient a b /\ b <> 0.
Proof.
  unfold int_truediv.
  destruct (Z.eqb_spec b 0) as [E|Hb]; [discriminate|].
  destruct (_ <=? _); [discriminate|]. by intros [= <-].
Qed.

(** ** The loop that fills a spline *)

Section FillPoints.

Variable blank : co.
Variables (w h : Z) (scale : float).

Lemma world_co_Ok (p : point) :
  w <> 1 -> h <> 1 -> in_float_range p ->
  world_co w h scale p = Ok (to_world w h scale p).
Proof.
  intros Hw Hh [Hx Hy]. unfold world_co, to_world.
  rewrite !int_truediv_Ok by (done || lia). reflexivity.
Qed.

Lemma world_co_Ok_inv (p : point) (c : co) :
  world_co w h scale p = Ok c ->
  c = to_world w h scale p /\ w <> 1 /\ h <> 1.
Proof.
  unfold world_co, to_world. intros H.
  apply bind_Ok_inv in H as (u & Hu & H).
  apply bind_Ok_inv in H as (v & Hv & [= <-]).
  apply int_truediv_Ok_inv in Hu as [-> Hw].
  apply int_truediv_Ok_inv in Hv as [-> Hh].
  split; [done | lia].
Qed.

Lemma world_all_Ok (pts : list point) :
  w <> 1 -> h <> 1 -> Forall in_float_range pts ->
  world_all w h scale pts = Ok (map (to_world w h scale) pts).
Proof.
  intros Hw Hh. induction 1 as [|p rest Hp _ IH]; simpl; [done|].
  rewrite world_co_Ok by done. simpl. by rewrite IH.
Qed.

Lemma world_all_length (pts : list point) (cs : list co) :
  world_all w h scale pts = Ok cs -> length cs = length pts.
Proof.
  revert cs; induction pts as [|p rest IH]; simpl; intros cs H.
  - by injection H as <-.
  - apply bind_Ok_inv in H as (c & _ & H).
    apply bind_Ok_inv in H as (cs' & Hcs & H).
    injection H as <-. simpl. by rewrite (IH cs').
Qed.

(** Filling the positions [i], [i+1], ... of a spline that has room for
    them replaces exactly those positions by the world coordinates. *)
Lemma fill_points_from (pts : list point) :
  forall (s : spline) (i : nat),
    (i + length pts <= length (spline_points s))%nat ->
    fill_points w h scale s (enumerate_from i pts) =
    cs ← world_all w h scale pts;
    Ok (Spline (take i (spline_points s) ++ cs
                ++ drop (i + length pts) (spline_points s))
               (use_cyclic_u s)).
Proof.
  induction pts as [|p rest IH]; intros s i Hlen; simpl.
  - rewrite Nat.add_0_r, take_drop. by destruct s.
  - destruct (world_co w h scale p) as [c|e]; simpl; [|done].
    unfold set_co, setitem. simpl in Hlen.
    destruct (decide (i < length (spline_points s))%nat) as [Hi|Hi]; [|lia].
    simpl. rewrite IH by (simpl; rewrite length_insert; lia).
    simpl. destruct (world_all w h scale rest) as [cs|e]; simpl; [|done].
    f_equal. f_equal.
    rewrite (take_S_r _ _ c) by (by apply list_lookup_insert_eq).
    rewrite take_insert_ge by lia.
    rewrite drop_insert_lt by lia.
    rewrite <- app_assoc. simpl.
    by replace (S (i + length rest)) with (i + S (length rest))%nat by lia.
Qed.

End FillPoints.

(** ** Subsampling *)

Section Stride.

Context {A : Type}.

Lemma stride_all (l : list A) : stride 0 0 l = l.
Proof. induction l as [|x t IH]; simpl; [done | by rewrite IH]. Qed.

(** The number of elements kept depends on the length only. *)
Lemma stride_length_eq (gap : nat) (l l' : list A) :
  length l = length l' ->
  forall skip, length (stride gap skip l) = length (stride gap skip l').
Proof.
  revert l'; induction l as [|x t IH]; intros [|x' t'] Hlen skip;
    simpl in *; try done.
  injection Hlen as Hlen. destruct skip; simpl; by rewrite (IH t').
Qed.

Lemma stride_app (gap : nat) (l1 l2 : list A) :
  forall skip,
    stride gap skip (l1 ++ l2) =
    stride gap skip l1 ++ stride gap (phase gap skip (length l1)) l2.
Proof.
  induction l1 as [|x t IH]; intros [|s]; simpl; rewrite ?IH; done.
Qed.

Lemma tick_le (gap skip : nat) : (skip <= gap -> tick gap skip <= gap)%nat.
Proof. destruct skip; simpl; lia. Qed.

Lemma phase_tick (gap n : nat) :
  forall skip, phase gap (tick gap skip) n = tick gap (phase gap skip n).
Proof. induction n as [|n IH]; intros skip; simpl; [done | by rewrite IH]. Qed.

Lemma phase_add (gap a b : nat) :
  forall skip, phase gap skip (a + b) = phase gap (phase gap skip a) b.
Proof. induction a as [|a IH]; intros skip; simpl; [done | by rewrite IH]. Qed.

Lemma phase_small (gap n : nat) :
  forall skip, (n <= skip)%nat -> phase gap skip n = (skip - n)%nat.
Proof.
  induction n as [|n IH]; intros [|s] Hn; simpl; try lia.
  rewrite IH by lia. lia.
Qed.

Lemma phase_period (gap skip : nat) :
  (skip <= gap)%nat -> phase gap skip (S gap) = skip.
Proof.
  intros Hs. replace (S gap) with (skip + (1 + (gap - skip)))%nat by lia.
  rewrite phase_add, (phase_small gap skip skip) by lia.
  replace (skip - skip)%nat with 0%nat by lia. simpl.
  rewrite phase_small by lia. lia.
Qed.

Lemma phase_periods (gap skip q r : nat) :
  (skip <= gap)%nat -> phase gap skip (q * S gap + r) = phase gap skip r.
Proof.
  intros Hs. induction q as [|q IH]; [done|].
  replace (S q * S gap + r)%nat with (S gap + (q * S gap + r))%nat by lia.
  by rewrite phase_add, phase_period.
Qed.

(** The countdowns of the two directions mirror each other. *)
Lemma tick_mirror (gap a : nat) :
  (a <= gap)%nat -> tick gap (gap - tick gap a) = (gap - a)%nat.
Proof.
  destruct a as [|a]; simpl; intros Ha.
  - replace (gap - gap)%nat with 0%nat by lia. simpl. lia.
  - destruct (gap - a)%nat as [|d] eqn:E; simpl; lia.
Qed.

Lemma phase_mirror (gap n : nat) :
  forall a s,
    (a <= gap)%nat -> (s <= gap)%nat ->
    phase gap a n = (gap - s)%nat -> phase gap s n = (gap - a)%nat.
Proof.
  induction n as [|n IH]; intros a s Ha Hs; simpl.
  - lia.
  - intros H. rewrite phase_tick.
    rewrite (IH (tick gap a) s) by (auto using tick_le).
    by apply tick_mirror.
Qed.

(** Subsampling the reversed list is reversing a subsampling of the list
    that starts where the countdowns of the two directions meet. *)
Lemma stride_rev (gap : nat) (l : list A) :
  forall s s',
    (s <= gap)%nat -> (s' <= gap)%nat ->
    phase gap s' (length l) = (gap - s)%nat ->
    stride gap s (rev l) = rev (stride gap s' l).
Proof.
  induction l as [|x t IH]; intros s s' Hs Hs' Hph; [done|].
  simpl rev. rewrite stride_app, length_rev.
  destruct s' as [|s']; simpl in Hph |- *.
  - rewrite (IH s gap) by (done || lia).
    rewrite (phase_mirror gap (length t) gap s) by (done || lia).
    by replace (gap - gap)%nat with 0%nat by lia.
  - rewrite (IH s s') by (done || lia).
    rewrite (phase_mirror gap (length t) s' s) by (done || lia).
    destruct (gap - s')%nat as [|d] eqn:E; [lia|]. simpl.
    by rewrite app_nil_r.
Qed.

(** When the gap plus one divides the length minus one, the first and the
    last element are both kept and the two directions agree. *)
Lemma stride_rev_aligned (gap q : nat) (l : list A) :
  length l = (q * S gap + 1)%nat ->
  stride gap 0 (rev l) = rev (stride gap 0 l).
Proof.
  intros Hlen. apply stride_rev; [lia | lia |].
  rewrite Hlen, phase_periods by lia. simpl. lia.
Qed.

End Stride.

(** ** The curve builder as a function of its arguments *)

Lemma every_nth_le_1 {A : Type} (step : Z) (l : list A) :
  step <= 1 -> every_nth step l = l.
Proof.
  intros Hs. unfold every_nth.
  replace (Z.to_nat step - 1)%nat with 0%nat by lia. apply stride_all.
Qed.

Lemma prepare_points_eq (pts : list point) (reverse : bool) (step : Z) :
  prepare_points pts reverse step =
  Ok (every_nth step (if reverse then rev pts else pts)).
Proof.
  unfold prepare_points, slice_step.
  destruct (Z.ltb_spec 1 step) as [Hs|Hs].
  - destruct (Z.eqb_spec step 0) as [E|_]; [lia|].
    destruct (Z.ltb_spec 0 step) as [_|E]; [done | lia].
  - by rewrite every_nth_le_1.
Qed.

Lemma Forall_stride {A : Type} (P : A -> Prop) (gap : nat) (l : list A) :
  Forall P l -> forall skip, Forall P (stride gap skip l).
Proof.
  induction 1 as [|x t Hx _ IH]; intros [|s]; simpl; auto.
Qed.

Lemma Forall_prepared {A : Type} (P : A -> Prop) (step : Z) (reverse : bool)
    (l : list A) :
  Forall P l -> Forall P (every_nth step (if reverse then rev l else l)).
Proof.
  intros Hl. apply Forall_stride. destruct reverse; [|done].
  by apply List.Forall_rev.
Qed.

Section CurveBuilder.

Variable blank : co.
Variables (w h : Z) (scale : float).

Lemma add_bezier_spline_eq (pts : list point) (reverse : bool) (step : Z)
    (cd : curve) :
  add_bezier_spline blank w h scale pts reverse step cd =
  let pts' := every_nth step (if reverse then rev pts else pts) in
  if (length pts' <? 3)%nat then Ok cd
  else cs ← world_all w h scale pts'; Ok (cd ++ [Spline cs true]).
Proof.
  unfold add_bezier_spline. rewrite prepare_points_eq. simpl.
  set (pts' := every_nth step _).
  destruct (Nat.ltb_spec (length pts') 3) as [Hlt|Hge]; [done|].
  unfold enumerate. rewrite fill_points_from.
  - destruct (world_all w h scale pts') as [cs|e]; simpl; [|done].
    rewrite drop_ge; [by rewrite app_nil_r|].
    simpl. rewrite length_replicate. lia.
  - simpl. rewrite length_replicate. lia.
Qed.

Lemma add_bezier_spline_Ok (pts : list point) (reverse : bool) (step : Z)
    (cd : curve) :
  w <> 1 -> h <> 1 -> Forall in_float_range pts ->
  add_bezier_spline blank w h scale pts reverse step cd =
  let pts' := every_nth step (if reverse then rev pts else pts) in
  Ok (if (length pts' <? 3)%nat then cd
      else cd ++ [Spline (map (to_world w h scale) pts') true]).
Proof.
  intros Hw Hh Hpts. rewrite add_bezier_spline_eq. simpl.
  destruct (_ <? 3)%nat; [done|].
  by rewrite world_all_Ok by auto using Forall_prepared.
Qed.

(** A call leaves [curve_data] as it is or adds one spline of at least
    three points at its end. *)
Lemma add_bezier_spline_grows (pts : list point) (reverse : bool) (step : Z)
    (cd cd' : curve) :
  add_bezier_spline blank w h scale pts reverse step cd = Ok cd' ->
  cd' = cd \/
  exists s, cd' = cd ++ [s] /\ (3 <= length (spline_points s))%nat
            /\ use_cyclic_u s = true.
Proof.
  rewrite add_bezier_spline_eq. simpl.
  destruct (Nat.ltb_spec (length (every_nth step (if reverse then rev pts else pts))) 3)
    as [Hlt|Hge].
  - intros [= <-]. by left.
  - intros H. apply bind_Ok_inv in H as (cs & Hcs & [= <-]).
    right. exists (Spline cs true). split; [done|]. simpl.
    apply world_all_length in Hcs. split; [lia | done].
Qed.

End CurveBuilder.

(** ** The comprehension and the loops against the plan *)

Lemma filter_enumerate_from {A : Type} (full : list A) (f : nat * A -> bool)
    (l : list A) :
  forall n : nat,
    (forall k : nat, l !! k = full !! (n + k)%nat) ->
    map fst (List.filter f (enumerate_from n l)) =
    List.filter
      (fun i => match full !! i with Some c => f (i, c) | None => false end)
      (seq n (length l)).
Proof.
  induction l as [|x t IH]; intros n Hl; [done|].
  simpl. pose proof (Hl 0%nat) as H0. rewrite Nat.add_0_r in H0. simpl in H0.
  rewrite <- H0.
  assert (Ht : forall k : nat, t !! k = full !! (S n + k)%nat).
  { intros k. specialize (Hl (S k)). by rewrite Nat.add_succ_r in Hl. }
  destruct (f (n, x)); simpl; by rewrite (IH (S n) Ht).
Qed.

Lemma top_indices_at_eq (margin : Z) (data : contour_data) :
  top_indices_at margin data =
  List.filter (eligible_at margin data) (seq 0 (length (contours data))).
Proof.
  unfold top_indices_at, enumerate.
  rewrite (filter_enumerate_from (contours data)) by done.
  apply filter_ext. intros i. unfold eligible_at.
  by destruct (contours data !! i).
Qed.

Lemma top_indices_eq (data : contour_data) :
  top_indices data = eligible_indices data.
Proof. apply top_indices_at_eq. Qed.

Section Loops.

Variable blank : co.
Variables (data : contour_data) (scale : float) (step : Z).

Local Abbreviation run := (run_plan blank data scale step).

Lemma run_plan_app (p1 p2 : list (nat * bool)) :
  forall cd, run (p1 ++ p2) cd = run p1 cd ≫= run p2.
Proof.
  induction p1 as [|[k r] rest IH]; intros cd; [done|].
  simpl. destruct (getitem (contours data) k) as [c|e]; simpl; [|done].
  destruct (add_bezier_spline _ _ _ _ _ _ _ _) as [cd'|e]; simpl; [|done].
  apply IH.
Qed.

Lemma hole_loop_from (i : nat) (l : list contour) :
  forall (n : nat) (cd : curve),
    (forall k : nat, l !! k = contours data !! (n + k)%nat) ->
    hole_loop blank data scale step i (enumerate_from n l) cd =
    run (map (fun j => (j, true))
           (List.filter (child_of data i) (seq n (length l)))) cd.
Proof.
  induction l as [|c t IH]; intros n cd Hl; [done|].
  pose proof (Hl 0%nat) as H0. rewrite Nat.add_0_r in H0. simpl in H0.
  assert (Ht : forall k : nat, t !! k = contours data !! (S n + k)%nat).
  { intros k. specialize (Hl (S k)). by rewrite Nat.add_succ_r in Hl. }
  simpl. unfold child_of at 1. rewrite <- H0.
  destruct (parent c =? Z.of_nat i); simpl.
  - unfold getitem. rewrite <- H0. simpl.
    destruct (add_bezier_spline _ _ _ _ _ _ _ _) as [cd'|e]; simpl; [|done].
    by apply IH.
  - by apply IH.
Qed.

Lemma hole_loop_eq (i : nat) (cd : curve) :
  hole_loop blank data scale step i (enumerate (contours data)) cd =
  run (map (fun j => (j, true)) (children data i)) cd.
Proof. by apply hole_loop_from. Qed.

Lemma outer_loop_eq (tops : list nat) :
  forall cd,
    outer_loop blank data scale step tops cd =
    run (flat_map
           (fun i => (i, false) :: map (fun j => (j, true)) (children data i))
           tops) cd.
Proof.
  induction tops as [|i rest IH]; intros cd; [done|].
  simpl. destruct (getitem (contours data) i) as [c|e]; simpl; [|done].
  destruct (add_bezier_spline _ _ _ _ _ _ _ _) as [cd1|e]; simpl; [|done].
  rewrite run_plan_app, hole_loop_eq.
  destruct (run _ cd1) as [cd2|e]; simpl; [|done].
  apply IH.
Qed.

Lemma build_curves_eq :
  build_curves blank data scale step = run (emission_plan data) [].
Proof.
  unfold build_curves. rewrite outer_loop_eq. by rewrite top_indices_eq.
Qed.

End Loops.

(** ** What the plan contains *)

Lemma eligible_at_Some (margin : Z) (data : contour_data) (i : nat) :
  eligible_at margin data i = true <->
  exists c, contours data !! i = Some c /\ parent c = -1
            /\ touches_border c (width data) (height data) margin = false.
Proof.
  unfold eligible_at. destruct (contours data !! i) as [c|]; split.
  - intros H. apply andb_true_iff in H as [Hp Ht].
    apply Z.eqb_eq in Hp. apply negb_true_iff in Ht. eauto.
  - intros (c' & [= <-] & Hp & Ht). by rewrite Hp, Ht.
  - discriminate.
  - intros (c' & [=] & _).
Qed.

Lemma child_of_Some (data : contour_data) (i j : nat) :
  child_of data i j = true <->
  exists c, contours data !! j = Some c /\ parent c = Z.of_nat i.
Proof.
  unfold child_of. destruct (contours data !! j) as [c|]; split.
  - intros H. apply Z.eqb_eq in H. eauto.
  - intros (c' & [= <-] & Hp). by apply Z.eqb_eq.
  - discriminate.
  - intros (c' & [=] & _).
Qed.

Lemma eligible_at_lt (margin : Z) (data : contour_data) (i : nat) :
  eligible_at margin data i = true -> (i < length (contours data))%nat.
Proof.
  intros H. apply eligible_at_Some in H as (c & Hc & _).
  by apply lookup_lt_Some in Hc.
Qed.

Lemma child_of_lt (data : contour_data) (i j : nat) :
  child_of data i j = true -> (j < length (contours data))%nat.
Proof.
  intros H. apply child_of_Some in H as (c & Hc & _).
  by apply lookup_lt_Some in Hc.
Qed.

Lemma emission_plan_In (data : contour_data) (k : nat) (r : bool) :
  In (k, r) (emission_plan data) <->
  (r = false /\ eligible data k = true) \/
  (r = true /\ exists i, eligible data i = true /\ child_of data i k = true).
Proof.
  unfold emission_plan, eligible_indices, children.
  rewrite in_flat_map. split.
  - intros (i & Hi & Hin). apply filter_In in Hi as [_ Hi].
    destruct Hin as [[= <- <-] | Hin]; [by left|].
    apply in_map_iff in Hin as (j & [= <- <-] & Hj).
    apply filter_In in Hj as [_ Hj]. right. eauto.
  - intros [[-> Hk] | (-> & i & Hi & Hk)].
    + exists k. split; [|by left].
      apply filter_In. split; [|done].
      apply in_seq. apply eligible_at_lt in Hk. lia.
    + exists i. split.
      * apply filter_In. split; [|done].
        apply in_seq. apply eligible_at_lt in Hi. lia.
      * right. apply in_map_iff. exists k. split; [done|].
        apply filter_In. split; [|done].
        apply in_seq. apply child_of_lt in Hk. lia.
Qed.

Lemma emission_plan_valid (data : contour_data) :
  Forall (fun kr => (kr.1 < length (contours data))%nat) (emission_plan data).
Proof.
  apply List.Forall_forall. intros [k r] Hin. simpl.
  apply emission_plan_In in Hin as [[_ Hk] | (_ & i & _ & Hk)].
  - by apply eligible_at_lt in Hk.
  - by apply child_of_lt in Hk.
Qed.

(** A selection from [seq] keeps the increasing order of the indices. *)
Lemma filter_seq_sorted (f : nat -> bool) (n : nat) :
  forall a : nat, StronglySorted lt (List.filter f (seq a n)).
Proof.
  induction n as [|n IH]; intros a; simpl; [constructor|].
  destruct (f a); [|apply IH].
  constructor; [apply IH|].
  apply List.Forall_forall. intros i Hi.
  apply filter_In in Hi as [Hi _]. apply in_seq in Hi. lia.
Qed.

Lemma children_In (data : contour_data) (i j : nat) :
  In j (children data i) <->
  exists c, contours data !! j = Some c /\ parent c = Z.of_nat i.
Proof.
  unfold children. rewrite filter_In, in_seq, <- child_of_Some.
  split; [by intros [_ H] | intros H]. split; [|done].
  apply child_of_lt in H. lia.
Qed.

Lemma eligible_indices_In (data : contour_data) (i : nat) :
  In i (eligible_indices data) <-> eligible data i = true.
Proof.
  unfold eligible_indices. rewrite filter_In, in_seq.
  split; [by intros [_ H] | intros H]. split; [|done].
  apply eligible_at_lt in H. lia.
Qed.

(** ** Running a plan *)

Section RunPlan.

Variable blank : co.
Variables (data : contour_data) (scale : float) (step : Z).

Local Abbreviation run := (run_plan blank data scale step).
Local Abbreviation valid :=
  (fun kr : nat * bool => (kr.1 < length (contours data))%nat).

Lemma coordinates_in_range_lookup (k : nat) (c : contour) :
  coordinates_in_range data -> contours data !! k = Some c ->
  Forall in_float_range (points c).
Proof. intros Hdata Hc. by apply (Forall_lookup_1 _ _ _ _ Hdata Hc). Qed.

Lemma run_plan_Ok (plan : list (nat * bool)) :
  width data <> 1 -> height data <> 1 -> coordinates_in_range data ->
  Forall valid plan ->
  forall cd, exists g, run plan cd = Ok g.
Proof.
  intros Hw Hh Hdata.
  induction 1 as [|[k r] rest Hk _ IH]; intros cd; simpl; [eauto|].
  destruct (getitem_lt (contours data) k Hk) as (c & -> & Hc). simpl.
  rewrite add_bezier_spline_Ok
    by eauto using coordinates_in_range_lookup.
  simpl. apply IH.
Qed.

(** A run only adds splines, each closed and of at least three points. *)
Lemma run_plan_grows (plan : list (nat * bool)) :
  forall cd g, run plan cd = Ok g ->
    exists added,
      g = cd ++ added /\
      Forall (fun s => (3 <= length (spline_points s))%nat
                       /\ use_cyclic_u s = true) added.
Proof.
  induction plan as [|[k r] rest IH]; intros cd g; simpl.
  - intros [= <-]. exists []. by rewrite app_nil_r.
  - intros H. apply bind_Ok_inv in H as (c & _ & H).
    apply bind_Ok_inv in H as (cd' & Hadd & H).
    apply IH in H as (added & -> & Hall).
    apply add_bezier_spline_grows in Hadd as [-> | (s & -> & Hs)]; [eauto|].
    exists (s :: added). rewrite <- app_assoc. split; [done|].
    by constructor.
Qed.

End RunPlan.

(** ** One run inside a session *)

Lemma build_model_from_contours_eq (blank : co) (factory : bpy_curves)
    (data : contour_data) (scale : float) (step : Z) (session : bpy_curves) :
  build_model_from_contours blank factory data scale step session =
  g ← build_curves blank data scale step;
  Ok (length factory, factory ++ [g]).
Proof.
  unfold build_model_from_contours, read_factory_settings, delete_all_objects,
    curves_new, build_curves, getitem.
  rewrite lookup_app_r, Nat.sub_diag by lia. simpl.
  destruct (outer_loop _ _ _ _ _ _) as [g|e]; simpl; [|done].
  f_equal. f_equal.
  by rewrite insert_app_r_alt, Nat.sub_diag by lia.
Qed.

(** ** The border test *)

Lemma touches_border_points_iff (pts : list point) (w h margin : Z) :
  touches_border_points pts w h margin = true <->
  exists p, In p pts /\ near_border w h margin p.
Proof.
  unfold near_border. induction pts as [|[x y] rest IH]; simpl.
  - split; [discriminate | by intros (p & [] & _)].
  - destruct ((x <=? margin) || (y <=? margin) || (x >=? w - margin)
              || (y >=? h - margin)) eqn:E.
    + split; [|done]. intros _. exists (x, y). split; [by left|]. simpl.
      rewrite !orb_true_iff in E. lia.
    + rewrite IH. rewrite !orb_false_iff in E.
      split; intros (p & Hin & Hp).
      * exists p. split; [by right | done].
      * destruct Hin as [<- | Hin]; [simpl in Hp; lia | eauto].
Qed.

Lemma near_border_mono (w h m1 m2 : Z) (p : point) :
  m1 <= m2 -> near_border w h m1 p -> near_border w h m2 p.
Proof. unfold near_border. lia. Qed.

Lemma touches_border_mono (c : contour) (w h m1 m2 : Z) :
  m1 <= m2 ->
  touches_border c w h m1 = true -> touches_border c w h m2 = true.
Proof.
  intros Hm. unfold touches_border. rewrite !touches_border_points_iff.
  intros (p & Hin & Hp). exists p. eauto using near_border_mono.
Qed.

(** ** Steps that do not subsample *)

Section StepBelowTwo.

Variable blank : co.
Variables (data : contour_data) (scale : float).

Lemma add_bezier_spline_step_le_1 (w h : Z) (pts : list point) (reverse : bool)
    (step : Z) (cd : curve) :
  step <= 1 ->
  add_bezier_spline blank w h scale pts reverse step cd =
  add_bezier_spline blank w h scale pts reverse 1 cd.
Proof.
  intros Hs. rewrite !add_bezier_spline_eq. simpl.
  by rewrite !every_nth_le_1 by lia.
Qed.

Lemma run_plan_step_le_1 (step : Z) (plan : list (nat * bool)) :
  step <= 1 ->
  forall cd,
    run_plan blank data scale step plan cd = run_plan blank data scale 1 plan cd.
Proof.
  intros Hs. induction plan as [|[k r] rest IH]; intros cd; simpl; [done|].
  destruct (getitem (contours data) k) as [c|e]; simpl; [|done].
  rewrite add_bezier_spline_step_le_1 by done.
  destruct (add_bezier_spline _ _ _ _ _ _ _ _) as [cd'|e]; simpl; [|done].
  apply IH.
Qed.

Lemma build_curves_step_le_1 (step : Z) :
  step <= 1 ->
  build_curves blank data scale step = build_curves blank data scale 1.
Proof. intros Hs. rewrite !build_curves_eq. by apply run_plan_step_le_1. Qed.

End StepBelowTwo.

(** ** Success of the coordinate loop *)

Lemma world_all_Ok_inv (w h : Z) (scale : float) (pts : list point)
    (cs : list co) :
  world_all w h scale pts = Ok cs ->
  cs = map (to_world w h scale) pts /\ (pts = [] \/ (w <> 1 /\ h <> 1)).
Proof.
  revert cs. induction pts as [|p rest IH]; simpl; intros cs H.
  - injection H as <-. auto.
  - apply bind_Ok_inv in H as (c & Hc & H).
    apply bind_Ok_inv in H as (cs' & Hcs & [= <-]).
    apply world_co_Ok_inv in Hc as (-> & Hw & Hh).
    apply IH in Hcs as [-> _]. auto.
Qed.

Lemma world_all_app (w h : Z) (scale : float) (l1 l2 : list point) :
  world_all w h scale (l1 ++ l2) =
  cs1 ← world_all w h scale l1;
  cs2 ← world_all w h scale l2;
  Ok (cs1 ++ cs2).
Proof.
  induction l1 as [|p rest IH]; simpl.
  - by destruct (world_all w h scale l2).
  - destruct (world_co w h scale p) as [c|e]; simpl; [|done].
    rewrite IH. destruct (world_all w h scale rest) as [cs1|e]; simpl; [|done].
    by destruct (world_all w h scale l2).
Qed.

(** The coordinates of the reversed sequence are the reversed
    coordinates: a point is computed from its own position only. *)
Lemma world_all_rev (w h : Z) (scale : float) (pts : list point) :
  forall cs,
    world_all w h scale pts = Ok cs ->
    world_all w h scale (rev pts) = Ok (rev cs).
Proof.
  induction pts as [|p rest IH]; simpl; intros cs H.
  - by injection H as <-.
  - apply bind_Ok_inv in H as (c & Hc & H).
    apply bind_Ok_inv in H as (cs' & Hcs & [= <-]).
    rewrite world_all_app, (IH cs' Hcs). simpl. by rewrite Hc.
Qed.

(** ** The coordinates of freshly allocated points do not show *)

Lemma add_bezier_spline_blank (blank blank' : co) (w h : Z) (scale : float)
    (pts : list point) (reverse : bool) (step : Z) (cd : curve) :
  add_bezier_spline blank w h scale pts reverse step cd =
  add_bezier_spline blank' w h scale pts reverse step cd.
Proof. by rewrite !add_bezier_spline_eq. Qed.

Lemma build_curves_blank (blank blank' : co) (data : contour_data)
    (scale : float) (step : Z) :
  build_curves blank data scale step = build_curves blank' data scale step.
Proof.
  rewrite !build_curves_eq. generalize (@nil spline) as cd.
  induction (emission_plan data) as [|[k r] rest IH]; intros cd; simpl; [done|].
  destruct (getitem (contours data) k) as [c|e]; simpl; [|done].
  rewrite (add_bezier_spline_blank blank blank').
  destruct (add_bezier_spline _ _ _ _ _ _ _ _) as [cd'|e]; simpl; [|done].
  apply IH.
Qed.

(** * The claims *)

(** C1. The curve group of a run is the result of building, one after the
    other, the curves of [emission_plan].  The plan lists the eligible
    top-level indices (parent [-1], border test false) in increasing order,
    that is in the original order of the contour set; each comes with
    [reverse = false] and is followed by the indices of the contours whose
    parent is that index, in increasing order, with [reverse = true].  A
    contour is in the plan only as an eligible top-level contour or as the
    child of one, so the holes of a top-level contour that the border test
    excludes are not built. *)
Theorem hierarchy_assembler_emits_plan (blank : co) (data : contour_data)
    (scale : float) (step : Z) :
  build_curves blank data scale step =
    run_plan blank data scale step (emission_plan data) []
  /\ top_indices data = eligible_indices data
  /\ emission_plan data =
     flat_map
       (fun i => (i, false) :: map (fun j => (j, true)) (children data i))
       (eligible_indices data)
  /\ StronglySorted lt (eligible_indices data)
  /\ (forall i : nat, StronglySorted lt (children data i))
  /\ (forall i : nat,
        In i (eligible_indices data) <->
        exists c, contours data !! i = Some c /\ parent c = -1
                  /\ touches_border c (width data) (height data) 2 = false)
  /\ (forall i j : nat,
        In j (children data i) <->
        exists c, contours data !! j = Some c /\ parent c = Z.of_nat i)
  /\ (forall (k : nat) (r : bool),
        In (k, r) (emission_plan data) <->
        (r = false /\ In k (eligible_indices data)) \/
        (r = true /\
         exists c i, contours data !! k = Some c /\ parent c = Z.of_nat i
                     /\ In i (eligible_indices data))).
Proof.
  split; [apply build_curves_eq|]. split; [apply top_indices_eq|].
  split; [done|]. split; [apply filter_seq_sorted|].
  split; [intros i; apply filter_seq_sorted|].
  split; [|split; [apply children_In|]].
  - intros i. rewrite eligible_indices_In. apply eligible_at_Some.
  - intros k r. rewrite emission_plan_In, eligible_indices_In. split.
    + intros [H | (-> & i & Hi & Hk)]; [by left | right].
      split; [done|]. apply child_of_Some in Hk as (c & Hc & Hp).
      exists c, i. by rewrite eligible_indices_In.
    + intros [H | (-> & c & i & Hc & Hp & Hi)]; [by left | right].
      split; [done|]. exists i. rewrite <- eligible_indices_In.
      split; [done|]. apply child_of_Some. eauto.
Qed.

(** C2. [touches_border] is true exactly when some point of the contour
    has [x <= margin], [y <= margin], [x >= width - margin] or
    [y >= height - margin]; the square of scenario A touches the border
    for the default margin 2 and its curve group is empty. *)
Theorem touches_border_iff (cnt : contour) (w h margin : Z) :
  (touches_border cnt w h margin = true <->
   exists x y, In (x, y) (points cnt)
               /\ (x <= margin \/ y <= margin
                   \/ x >= w - margin \/ y >= h - margin))
  /\ default_margin = 2
  /\ Forall (fun c => touches_border c 10 10 default_margin = true)
       (contours scenario_A)
  /\ forall (blank : co) (scale : float) (step : Z),
       build_curves blank scenario_A scale step = Ok [].
Proof.
  split; [|by repeat constructor].
  unfold touches_border. rewrite touches_border_points_iff. split.
  - intros ([x y] & Hin & Hp). by exists x, y.
  - intros (x & y & Hin & Hp). by exists (x, y).
Qed.

(** C6. With [width > 1] and [height > 1], whenever the curve builder
    returns, the spline it has added holds, for each point [(x, y)] left
    after subsampling and in that order, the coordinates
    [((x/(width-1) - 0.5) * scale, (0.5 - y/(height-1)) * scale, 0, 1)],
    where [x/(width-1)] is the quotient of the two integers rounded to
    binary64 and the other operations are those of binary64; nothing is
    clamped.  It does return for coordinates within the range of the
    floats.  For [width = height = 10] the point [(3, 3)] has
    [u = v = 3/9]. *)
Theorem world_coordinates_exact (blank : co) (w h : Z) (scale : float)
    (pts : list point) (reverse : bool) (step : Z) (cd : curve) :
  1 < w -> 1 < h ->
  (exists pts',
     prepare_points pts reverse step = Ok pts'
     /\ (forall cd',
           add_bezier_spline blank w h scale pts reverse step cd = Ok cd' ->
           cd' = if (length pts' <? 3)%nat then cd
                 else cd ++ [Spline (map (to_world w h scale) pts') true])
     /\ (Forall in_float_range pts ->
         add_bezier_spline blank w h scale pts reverse step cd =
         Ok (if (length pts' <? 3)%nat then cd
             else cd ++ [Spline (map (to_world w h scale) pts') true])))
  /\ (forall x y : Z,
        to_world w h scale (x, y) =
        (((rounded_quotient x (w - 1) - 0.5) * scale)%float,
         ((0.5 - rounded_quotient y (h - 1)) * scale)%float,
         0%float, 1%float))
  /\ rounded_quotient 3 (10 - 1) = (3 / 9)%float
  /\ to_world 10 10 scale (3, 3) =
     (((3 / 9 - 0.5) * scale)%float, ((0.5 - 3 / 9) * scale)%float,
      0%float, 1%float).
Proof.
  intros Hw Hh. split; [|by repeat split].
  eexists. split; [apply prepare_points_eq|]. split.
  - intros cd'. rewrite add_bezier_spline_eq. simpl.
    destruct (_ <? 3)%nat; [by intros [= <-]|].
    intros H. apply bind_Ok_inv in H as (cs & Hcs & [= <-]).
    by apply world_all_Ok_inv in Hcs as [-> _].
  - intros Hpts. by rewrite add_bezier_spline_Ok by (done || lia).
Qed.

(** The four corners of scenario B, kept in order. *)
Lemma world_coordinates_exact_witness :
  add_bezier_spline zero_co 10 10 2 [(3, 3); (3, 6); (6, 6); (6, 3)] false 1 [] =
  Ok [Spline (map (to_world 10 10 2) [(3, 3); (3, 6); (6, 6); (6, 3)]) true].
Proof.
  destruct (world_coordinates_exact zero_co 10 10 2
              [(3, 3); (3, 6); (6, 6); (6, 3)] false 1 [])
    as [(pts' & Hprep & _ & Hadd) _]; [lia | lia |].
  vm_compute in Hprep. injection Hprep as <-. apply Hadd.
  repeat constructor.
Defined.

(** C7. The point sequence after reversal and subsampling always exists;
    when it has fewer than three points the curve builder returns without
    an exception and leaves the curve data unchanged; a call that returns
    adds nothing or one spline of at least three points, so every spline
    of a curve group has at least three points; the five-point contour of
    scenario D passes the border filter and, with step 3, keeps two points
    and yields an empty curve group. *)
Theorem degenerate_curve_dropped (blank : co) (w h : Z) (scale : float)
    (pts : list point) (reverse : bool) (step : Z) (cd : curve) :
  (exists pts',
     prepare_points pts reverse step = Ok pts' /\
     ((length pts' < 3)%nat ->
      add_bezier_spline blank w h scale pts reverse step cd = Ok cd))
  /\ (forall cd',
        add_bezier_spline blank w h scale pts reverse step cd = Ok cd' ->
        cd' = cd \/
        exists s, cd' = cd ++ [s] /\ (3 <= length (spline_points s))%nat)
  /\ (forall data g,
        build_curves blank data scale step = Ok g ->
        Forall (fun s => (3 <= length (spline_points s))%nat) g)
  /\ top_indices scenario_D = [0%nat]
  /\ prepare_points [(3, 3); (3, 6); (5, 7); (6, 6); (6, 3)] false 3 =
     Ok [(3, 3); (6, 6)]
  /\ build_curves blank scenario_D scale 3 = Ok [].
Proof.
  split; [|split; [|split; [|by repeat split]]].
  - eexists. split; [apply prepare_points_eq|].
    intros Hlt. rewrite add_bezier_spline_eq. simpl.
    by destruct (Nat.ltb_spec
                   (length (every_nth step (if reverse then rev pts else pts))) 3);
      [|lia].
  - intros cd' H.
    apply add_bezier_spline_grows in H as [-> | (s & -> & Hs & _)]; eauto.
  - intros data g H. rewrite build_curves_eq in H.
    apply run_plan_grows in H as (added & -> & Hall). simpl.
    eapply Forall_impl; [exact Hall|]. by intros s [Hs _].
Qed.

(** Scenario D at the curve builder, and the group of scenario B. *)
Lemma degenerate_curve_dropped_witness :
  add_bezier_spline zero_co 10 10 2 [(3, 3); (3, 6); (5, 7); (6, 6); (6, 3)]
    false 3 [] = Ok []
  /\ Forall (fun s => (3 <= length (spline_points s))%nat)
       [Spline (map (to_world 10 10 2) [(3, 3); (3, 6); (6, 6); (6, 3)]) true].
Proof.
  destruct (degenerate_curve_dropped zero_co 10 10 2
              [(3, 3); (3, 6); (5, 7); (6, 6); (6, 3)] false 3 [])
    as ((pts' & Hprep & Hdrop) & _).
  destruct (degenerate_curve_dropped zero_co 10 10 2 [] false 1 [])
    as (_ & _ & Hall & _).
  split.
  - apply Hdrop. vm_compute in Hprep. injection Hprep as <-. simpl. lia.
  - apply (Hall scenario_B). vm_compute. reflexivity.
Defined.

(** C8. For margins [m1 <= m2], every top-level index that is eligible
    with margin [m2] is eligible with margin [m1]. *)
Theorem border_filter_monotone (data : contour_data) (m1 m2 : Z) :
  m1 <= m2 ->
  forall i : nat, In i (top_indices_at m2 data) -> In i (top_indices_at m1 data).
Proof.
  intros Hm i. rewrite !top_indices_at_eq, !filter_In.
  intros [Hseq Hi]. split; [done|].
  apply eligible_at_Some in Hi as (c & Hc & Hp & Ht).
  apply eligible_at_Some. exists c. split; [done|]. split; [done|].
  destruct (touches_border c (width data) (height data) m1) eqn:E; [|done].
  apply (touches_border_mono c _ _ m1 m2 Hm) in E. congruence.
Qed.

(** The square of scenario B, eligible for margin 2, is eligible for
    margin 0. *)
Lemma border_filter_monotone_witness : In 0%nat (top_indices_at 0 scenario_B).
Proof.
  apply (border_filter_monotone scenario_B 0 2); [lia|].
  vm_compute. left. reflexivity.
Defined.

(** C10. For every step of at most one, zero and negative steps included,
    no point is removed and no exception is raised by the subsampling
    statement: the points are those of step one, and the curve builder and
    the whole run give the results of step one. *)
Theorem step_below_two_keeps_all (blank : co) (w h : Z) (scale : float)
    (pts : list point) (reverse : bool) (step : Z) (cd : curve) :
  step <= 1 ->
  prepare_points pts reverse step = Ok (if reverse then rev pts else pts)
  /\ add_bezier_spline blank w h scale pts reverse step cd =
     add_bezier_spline blank w h scale pts reverse 1 cd
  /\ forall data,
       build_curves blank data scale step = build_curves blank data scale 1.
Proof.
  intros Hs. split; [|split].
  - by rewrite prepare_points_eq, every_nth_le_1.
  - by apply add_bezier_spline_step_le_1.
  - intros data. by apply build_curves_step_le_1.
Qed.

(** Steps 0 and -3 on the six points of [hexagon]. *)
Lemma step_below_two_keeps_all_witness :
  prepare_points hexagon true 0 = Ok (rev hexagon)
  /\ prepare_points hexagon false (-3) = Ok hexagon.
Proof.
  split.
  - apply (step_below_two_keeps_all zero_co 10 10 2 hexagon true 0 []). lia.
  - apply (step_below_two_keeps_all zero_co 10 10 2 hexagon false (-3) []). lia.
Defined.

(** C3, as stated, fails: with step 2 the six points of [hexagon] give the
    points at positions 0, 2, 4 when not reversed and the points at
    positions 5, 3, 1 when reversed, and the two splines are not the
    reverse of one another. *)
Lemma winding_inversion_counterexample :
  0 < 2
  /\ prepare_points hexagon false 2 = Ok [(3, 3); (3, 7); (7, 5)]
  /\ prepare_points hexagon true 2 = Ok [(7, 3); (7, 7); (3, 5)]
  /\ exists sf sr,
       add_bezier_spline zero_co 10 10 2 hexagon false 2 [] = Ok [sf]
       /\ add_bezier_spline zero_co 10 10 2 hexagon true 2 [] = Ok [sr]
       /\ spline_points sr <> rev (spline_points sf).
Proof.
  split; [lia|]. split; [reflexivity|]. split; [reflexivity|].
  eexists. eexists. split; [vm_compute; reflexivity|].
  split; [vm_compute; reflexivity|].
  simpl. intros H.
  apply (f_equal (fun l : list co =>
                    match l with
                    | c :: _ => (c.1.1.2 <? 0)%float
                    | [] => false
                    end)) in H.
  vm_compute in H. discriminate.
Qed.

(** C3, amended.  For a positive step the points of the curve built with
    [reverse = true] are every [step]-th point of the reversed original
    sequence, counted from the original last point, and they are as many as
    for [reverse = false].  When [step] divides the number of points minus
    one (always for step 1) they are the exact reverse of the points for
    [reverse = false], and so are the points of the two splines. *)
Theorem reverse_before_subsampling (blank : co) (w h : Z) (scale : float)
    (pts : list point) (step : Z) (cd : curve) :
  0 < step ->
  prepare_points pts false step = Ok (every_nth step pts)
  /\ prepare_points pts true step = Ok (every_nth step (rev pts))
  /\ length (every_nth step (rev pts)) = length (every_nth step pts)
  /\ ((Z.of_nat (length pts) - 1) mod step = 0 ->
      every_nth step (rev pts) = rev (every_nth step pts)
      /\ forall sf,
           add_bezier_spline blank w h scale pts false step cd = Ok (cd ++ [sf]) ->
           exists sr,
             add_bezier_spline blank w h scale pts true step cd = Ok (cd ++ [sr])
             /\ spline_points sr = rev (spline_points sf)).
Proof.
  intros Hstep. split; [apply prepare_points_eq|].
  split; [apply prepare_points_eq|]. split.
  { unfold every_nth. apply stride_length_eq. by rewrite length_rev. }
  intros Hmod.
  assert (Hrev : every_nth step (rev pts) = rev (every_nth step pts)).
  { destruct pts as [|p rest]; [done|].
    set (n := Z.of_nat (length (p :: rest))) in *.
    assert (Hn : 1 <= n) by (unfold n; simpl; lia).
    assert (Hd : 0 <= (n - 1) / step) by (apply Z.div_pos; lia).
    assert (He : n - 1 = step * ((n - 1) / step)) by (apply Z.div_exact; lia).
    unfold every_nth.
    apply (stride_rev_aligned _ (Z.to_nat ((n - 1) / step))).
    replace (S (Z.to_nat step - 1)) with (Z.to_nat step) by lia.
    apply Nat2Z.inj.
    rewrite Nat2Z.inj_add, Nat2Z.inj_mul, !Z2Nat.id by lia.
    fold n. lia. }
  split; [done|]. intros sf H.
  rewrite add_bezier_spline_eq in H. simpl in H.
  destruct (Nat.ltb_spec (length (every_nth step pts)) 3) as [Hlt|Hge].
  { injection H as H. apply (f_equal length) in H.
    rewrite length_app in H. simpl in H. lia. }
  apply bind_Ok_inv in H as (cs & Hcs & H). injection H as H.
  apply app_inv_head in H. injection H as <-.
  rewrite add_bezier_spline_eq. simpl. rewrite Hrev.
  destruct (Nat.ltb_spec (length (rev (every_nth step pts))) 3) as [Hlt|_].
  { rewrite length_rev in Hlt. lia. }
  rewrite (world_all_rev _ _ _ _ cs Hcs). simpl.
  eexists. split; [reflexivity|]. done.
Qed.

(** Five points and step 2: positions 0, 2, 4 in both directions. *)
Lemma reverse_before_subsampling_witness :
  every_nth 2 (rev [(3, 3); (3, 5); (3, 7); (7, 7); (7, 5)]) =
  rev (every_nth 2 [(3, 3); (3, 5); (3, 7); (7, 7); (7, 5)]).
Proof.
  destruct (reverse_before_subsampling zero_co 10 10 2
              [(3, 3); (3, 5); (3, 7); (7, 7); (7, 5)] 2 [])
    as (_ & _ & _ & H); [lia|].
  apply H. reflexivity.
Defined.

(** C4, as stated, fails: a parent index outside the set, two contours
    that name each other as parent, and a contour nested inside a hole
    each leave the run successful, with the curve of the square (and of its
    hole) built. *)
Lemma malformed_hierarchy_counterexample :
  (parent_out_of_range stray_parent = true
   /\ malformed_hierarchy stray_parent = true
   /\ exists s, build_curves zero_co stray_parent 2 1 = Ok [s])
  /\ (parent_cycle parent_loop = true
      /\ malformed_hierarchy parent_loop = true
      /\ exists s, build_curves zero_co parent_loop 2 1 = Ok [s])
  /\ (nesting_exceeds_two three_levels = true
      /\ malformed_hierarchy three_levels = true
      /\ exists s1 s2, build_curves zero_co three_levels 2 1 = Ok [s1; s2]).
Proof.
  repeat split; try reflexivity.
  - eexists. vm_compute. reflexivity.
  - eexists. vm_compute. reflexivity.
  - eexists. eexists. vm_compute. reflexivity.
Qed.

(** C4, amended.  The hierarchy is not validated and no contour set is
    rejected for it: for every contour set with width and height other
    than 1 and coordinates within the range of the floats the run
    completes, and its curves are those of the plan.  A contour has a curve
    built only if it is top-level or its parent is the index of a top-level
    contour of the set; a contour whose parent is out of range, or is not
    top-level itself (as on a cycle or below a hole), is passed over. *)
Theorem hierarchy_not_validated (blank : co) (data : contour_data)
    (scale : float) (step : Z) :
  width data <> 1 -> height data <> 1 -> coordinates_in_range data ->
  (exists g,
     build_curves blank data scale step = Ok g
     /\ run_plan blank data scale step (emission_plan data) [] = Ok g)
  /\ forall (k : nat) (r : bool) (c : contour),
       In (k, r) (emission_plan data) ->
       contours data !! k = Some c ->
       parent c = -1 \/
       exists i p, parent c = Z.of_nat i
                   /\ contours data !! i = Some p /\ parent p = -1.
Proof.
  intros Hw Hh Hdata. split.
  - destruct (run_plan_Ok blank data scale step (emission_plan data) Hw Hh
                Hdata (emission_plan_valid data) []) as [g Hg].
    exists g. by rewrite build_curves_eq.
  - intros k r c Hin Hc.
    apply emission_plan_In in Hin as [[_ Hk] | (_ & i & Hi & Hk)].
    + apply eligible_at_Some in Hk as (c' & Hc' & Hp & _).
      left. congruence.
    + apply child_of_Some in Hk as (c' & Hc' & Hp).
      apply eligible_at_Some in Hi as (p & Hpi & Hpp & _).
      right. exists i, p. split; [congruence | done].
Qed.

(** The run on the three nested contours. *)
Lemma hierarchy_not_validated_witness :
  exists g, build_curves zero_co three_levels 2 1 = Ok g
            /\ run_plan zero_co three_levels 2 1 (emission_plan three_levels) []
               = Ok g.
Proof.
  apply (hierarchy_not_validated zero_co three_levels 2 1);
    [vm_compute; discriminate | vm_compute; discriminate | in_range].
Defined.

(** C5, as stated, fails: a step of zero, a negative scale, and a width
    and height of zero are all accepted, and a curve is built. *)
Lemma invalid_configuration_counterexample :
  (invalid_configuration scenario_B 2 0 = true
   /\ exists s, build_curves zero_co scenario_B 2 0 = Ok [s])
  /\ (invalid_configuration scenario_B (-2) 1 = true
      /\ exists s, build_curves zero_co scenario_B (-2) 1 = Ok [s])
  /\ (invalid_configuration zero_size 2 1 = true
      /\ exists s, build_curves zero_co zero_size 2 1 = Ok [s]).
Proof.
  repeat split; try reflexivity; eexists; vm_compute; reflexivity.
Qed.

(** C5, amended.  The configuration is not validated before processing.
    For every scale and every step (zero and negative values included) and
    every width and height other than 1 (zero and negative values
    included), a contour set with coordinates within the range of the
    floats is processed to the end and yields a curve group; a step of at
    most zero gives the curve group of step 1. *)
Theorem configuration_not_validated (blank : co) (data : contour_data)
    (scale : float) (step : Z) :
  (width data <> 1 -> height data <> 1 -> coordinates_in_range data ->
   exists g, build_curves blank data scale step = Ok g)
  /\ (step <= 0 ->
      build_curves blank data scale step = build_curves blank data scale 1).
Proof.
  split.
  - intros Hw Hh Hdata. rewrite build_curves_eq.
    apply run_plan_Ok; auto using emission_plan_valid.
  - intros Hs. apply build_curves_step_le_1. lia.
Qed.

(** A zero-sized set with negative scale and step 0, and a negative step
    on scenario B. *)
Lemma configuration_not_validated_witness :
  (exists g, build_curves zero_co zero_size (-2) 0 = Ok g)
  /\ build_curves zero_co scenario_B 2 (-4) = build_curves zero_co scenario_B 2 1.
Proof.
  split.
  - apply (configuration_not_validated zero_co zero_size (-2) 0);
      [vm_compute; discriminate | vm_compute; discriminate | in_range].
  - apply (configuration_not_validated zero_co scenario_B 2 (-4)). lia.
Defined.

(** C9. The outcome of a run, the curve group or the exception, is the
    same in whatever session the run is started and whatever coordinates
    freshly allocated spline points carry: the scene is reset first, the
    splines go to a datablock of their own, and every allocated point is
    assigned.  In particular a run repeated in the session the first run
    has left returns the same handle and the same session, whose new
    datablock holds the curve group computed from the contour set, the
    scale and the step: the same splines with the same points in the same
    order. *)
Theorem build_twice_same_group (blank1 blank2 : co) (factory : bpy_curves)
    (data : contour_data) (scale : float) (step : Z)
    (session1 session2 : bpy_curves) :
  build_model_from_contours blank1 factory data scale step session1 =
  build_model_from_contours blank2 factory data scale step session2
  /\ forall (h : nat) (session : bpy_curves),
       build_model_from_contours blank1 factory data scale step session1
         = Ok (h, session) ->
       build_model_from_contours blank2 factory data scale step session
         = Ok (h, session)
       /\ exists g,
            build_curves blank1 data scale step = Ok g
            /\ build_curves blank2 data scale step = Ok g
            /\ session = factory ++ [g]
            /\ session !! h = Some g.
Proof.
  rewrite !build_model_from_contours_eq.
  rewrite (build_curves_blank blank2 blank1). split; [done|].
  intros h session H. setoid_rewrite build_model_from_contours_eq.
  rewrite (build_curves_blank blank2 blank1).
  apply bind_Ok_inv in H as (g & Hg & [= <- <-]).
  rewrite Hg. split; [done|]. exists g.
  split; [done|]. split; [done|]. split; [done|].
  by rewrite lookup_app_r, Nat.sub_diag by lia.
Qed.

(** Scenario B run in a session of three datablocks and then again in the
    session that run has left, with different coordinates for fresh
    points. *)
Lemma build_twice_same_group_witness :
  build_model_from_contours (1, 1, 1, 1)%float [[]] scenario_B 2 1
    [[]; scenario_B_group] = Ok (1%nat, [[]; scenario_B_group])
  /\ exists g,
       build_curves zero_co scenario_B 2 1 = Ok g
       /\ build_curves (1, 1, 1, 1)%float scenario_B 2 1 = Ok g
       /\ [[]; scenario_B_group] = [[]] ++ [g]
       /\ [[]; scenario_B_group] !! 1%nat = Some g.
Proof.
  destruct (build_twice_same_group zero_co (1, 1, 1, 1)%float [[]] scenario_B
              2 1 [[]; []; []] []) as [_ H].
  apply (H 1%nat [[]; scenario_B_group]).
  vm_compute. reflexivity.
Defined.

(** * Further properties of the code *)

(** ** Which points subsampling keeps *)

Section StrideIndex.

Context {A : Type}.

Lemma stride_lookup (gap : nat) (l : list A) :
  forall skip j : nat,
    stride gap skip l !! j = l !! (skip + j * S gap)%nat.
Proof.
  induction l as [|x t IH]; intros skip j; [done|].
  destruct skip as [|s]; simpl.
  - destruct j as [|j]; [done|]. simpl. apply IH.
  - apply IH.
Qed.

Lemma stride_length (gap : nat) (l : list A) :
  forall skip : nat,
    length (stride gap skip l) = ((length l - skip + gap) / S gap)%nat.
Proof.
  induction l as [|x t IH]; intros skip.
  - cbn [stride length]. symmetry. apply Nat.div_small. lia.
  - destruct skip as [|s]; cbn [stride length]; rewrite IH; [|done].
    replace (S (length t) - 0 + gap)%nat
      with (length t + 1 * S gap)%nat by lia.
    rewrite Nat.div_add by lia.
    destruct (le_lt_dec gap (length t)) as [Hle|Hlt].
    + replace (length t - gap + gap)%nat with (length t) by lia. lia.
    + replace (length t - gap + gap)%nat with gap by lia.
      rewrite !Nat.div_small by lia. lia.
Qed.

Lemma rev_lookup (l : list A) (i : nat) :
  rev l !! i =
  if (i <? length l)%nat then l !! (length l - 1 - i)%nat else None.
Proof.
  replace (rev l) with (reverse l) by (unfold reverse; by rewrite rev_alt).
  destruct (Nat.ltb_spec i (length l)) as [Hlt|Hge].
  - rewrite reverse_lookup by done. f_equal. lia.
  - apply lookup_ge_None. by rewrite length_reverse.
Qed.

End StrideIndex.

Lemma every_nth_lookup {A : Type} (step : Z) (l : list A) (j : nat) :
  every_nth step l !! j = l !! (j * Z.to_nat (Z.max 1 step))%nat.
Proof.
  unfold every_nth. rewrite stride_lookup. f_equal. lia.
Qed.

Lemma every_nth_length {A : Type} (step : Z) (l : list A) :
  Z.of_nat (length (every_nth step l)) =
  (Z.of_nat (length l) + Z.max 1 step - 1) / Z.max 1 step.
Proof.
  unfold every_nth. rewrite stride_length, Nat2Z.inj_div.
  f_equal; lia.
Qed.

Lemma every_nth_short {A : Type} (step : Z) (l : list A) :
  (length (every_nth step l) < 3)%nat <->
  Z.of_nat (length l) <= 2 * Z.max 1 step.
Proof.
  unfold every_nth. rewrite stride_length.
  set (g := (Z.to_nat step - 1)%nat).
  replace (Z.max 1 step) with (Z.of_nat (S g)) by lia.
  rewrite Nat.sub_0_r. split.
  - intros H.
    destruct (Z_le_gt_dec (Z.of_nat (length l)) (2 * Z.of_nat (S g)))
      as [Hle|Hgt]; [done|].
    assert (3 <= (length l + g) / S g)%nat; [|lia].
    apply Nat.div_le_lower_bound; lia.
  - intros H. apply Nat.Div0.div_lt_upper_bound. lia.
Qed.

(** X1. The points that are left, by their positions in the contour: without
    reversal the [j]-th one is the point at position [j * k], with reversal
    it is the point at position [n - 1 - j * k], where [k] is the step, or
    [1] for a step below one, and [n] the number of points. *)
Theorem subsampled_point_index (pts : list point) (reverse : bool) (step : Z) :
  exists pts',
    prepare_points pts reverse step = Ok pts'
    /\ forall j : nat,
         let k := Z.to_nat (Z.max 1 step) in
         pts' !! j =
         if reverse
         then (if (j * k <? length pts)%nat
               then pts !! (length pts - 1 - j * k)%nat else None)
         else pts !! (j * k)%nat.
Proof.
  eexists. split; [apply prepare_points_eq|].
  intros j k. rewrite every_nth_lookup. fold k.
  destruct reverse; [apply rev_lookup | done].
Qed.

(** X2. The number of points that are left is the number of points divided by
    the step and rounded up (the step counting as [1] when it is below
    one). *)
Theorem subsampled_point_count (pts : list point) (reverse : bool) (step : Z) :
  exists pts',
    prepare_points pts reverse step = Ok pts'
    /\ Z.of_nat (length pts') =
       (Z.of_nat (length pts) + Z.max 1 step - 1) / Z.max 1 step.
Proof.
  eexists. split; [apply prepare_points_eq|].
  rewrite every_nth_length. by destruct reverse; rewrite ?length_rev.
Qed.

(** ** When a contour is dropped *)

Lemma world_all_zero_division (w h : Z) (scale : float) (pts : list point) :
  w = 1 \/ h = 1 -> pts <> [] -> Forall in_float_range pts ->
  world_all w h scale pts = Raise ZeroDivisionError.
Proof.
  intros Hwh Hne Hpts. destruct Hpts as [|p rest [Hx Hy] _]; [done|].
  simpl. unfold world_co.
  destruct (decide (w = 1)) as [->|Hw]; [done|].
  rewrite (int_truediv_Ok p.1 (w - 1)) by (done || lia). simpl.
  destruct Hwh as [Hw1 | ->]; [done|]. done.
Qed.

(** X3. A contour of [n] points yields a spline exactly when [n] exceeds twice
    the step (the step counting as [1] when it is below one): up to that
    length the call returns with the curve data unchanged, whatever the
    width, the height and the coordinates are; beyond it, and for
    coordinates within the range of the floats, the call adds one spline
    whose number of points is [n] divided by the step and rounded up, or,
    for a width or height of [1], raises the division by zero. *)
Theorem contour_dropped_iff_short (blank : co) (w h : Z) (scale : float)
    (pts : list point) (reverse : bool) (step : Z) (cd : curve) :
  (Z.of_nat (length pts) <= 2 * Z.max 1 step ->
   add_bezier_spline blank w h scale pts reverse step cd = Ok cd)
  /\ (2 * Z.max 1 step < Z.of_nat (length pts) ->
      Forall in_float_range pts -> w <> 1 -> h <> 1 ->
      exists s,
        add_bezier_spline blank w h scale pts reverse step cd = Ok (cd ++ [s])
        /\ Z.of_nat (length (spline_points s)) =
           (Z.of_nat (length pts) + Z.max 1 step - 1) / Z.max 1 step)
  /\ (2 * Z.max 1 step < Z.of_nat (length pts) ->
      Forall in_float_range pts -> w = 1 \/ h = 1 ->
      add_bezier_spline blank w h scale pts reverse step cd =
      Raise ZeroDivisionError).
Proof.
  set (base := if reverse then rev pts else pts).
  assert (Hbase : length base = length pts).
  { unfold base. by destruct reverse; rewrite ?length_rev. }
  pose proof (every_nth_short step base) as Hshort. rewrite Hbase in Hshort.
  rewrite add_bezier_spline_eq. simpl. fold base.
  destruct (Nat.ltb_spec (length (every_nth step base)) 3) as [Hlt|Hge].
  - apply Hshort in Hlt. repeat split; intros; (done || lia).
  - assert (Hlong : 2 * Z.max 1 step < Z.of_nat (length pts)).
    { destruct (Z_lt_le_dec (2 * Z.max 1 step) (Z.of_nat (length pts)))
        as [Hl|Hl]; [done|]. apply Hshort in Hl. lia. }
    split; [lia|]. split.
    + intros _ Hpts Hw Hh.
      rewrite world_all_Ok by (done || by apply Forall_prepared). simpl.
      eexists. split; [done|]. simpl.
      by rewrite length_map, every_nth_length, Hbase.
    + intros _ Hpts Hwh.
      rewrite world_all_zero_division;
        [done | done | | by apply Forall_prepared].
      intros Hnil. rewrite Hnil in Hge. simpl in Hge. lia.
Qed.

(** Seven points and step 3 give a spline of three points, six points
    give none, and a width of [1] makes the seven points fail. *)
Lemma contour_dropped_iff_short_witness :
  add_bezier_spline zero_co 10 10 2 hexagon false 3 [] = Ok []
  /\ (exists s,
        add_bezier_spline zero_co 10 10 2 ((5, 5) :: hexagon) true 3 [] = Ok [s]
        /\ Z.of_nat (length (spline_points s)) = 3)
  /\ add_bezier_spline zero_co 1 10 2 ((5, 5) :: hexagon) true 3 [] =
     Raise ZeroDivisionError.
Proof.
  split; [|split].
  - apply (contour_dropped_iff_short zero_co 10 10 2 hexagon false 3 []).
    simpl. lia.
  - apply (contour_dropped_iff_short zero_co 10 10 2 ((5, 5) :: hexagon)
             true 3 []); [simpl; lia | in_range | lia | lia].
  - apply (contour_dropped_iff_short zero_co 1 10 2 ((5, 5) :: hexagon)
             true 3 []); [simpl; lia | in_range | lia].
Defined.

(** ** What every spline of a curve group looks like *)

Lemma Forall_closed_planar_snoc (cd : curve) (s : spline) :
  Forall closed_planar cd -> closed_planar s -> Forall closed_planar (cd ++ [s]).
Proof. intros Hcd Hs. apply Forall_app. split; [done | by constructor]. Qed.

Section ClosedPlanar.

Variable blank : co.

Lemma world_all_planar (w h : Z) (scale : float) (pts : list point) :
  forall cs,
    world_all w h scale pts = Ok cs ->
    Forall (fun c : co => c.1.2 = 0%float /\ c.2 = 1%float) cs.
Proof.
  induction pts as [|p rest IH]; simpl; intros cs H.
  - injection H as <-. constructor.
  - apply bind_Ok_inv in H as (c & Hc & H).
    apply bind_Ok_inv in H as (cs' & Hcs & [= <-]).
    constructor; [|by apply IH].
    unfold world_co in Hc.
    apply bind_Ok_inv in Hc as (u & _ & Hc).
    apply bind_Ok_inv in Hc as (v & _ & [= <-]). done.
Qed.

Lemma add_bezier_spline_closed_planar (w h : Z) (scale : float)
    (pts : list point) (reverse : bool) (step : Z) (cd cd' : curve) :
  add_bezier_spline blank w h scale pts reverse step cd = Ok cd' ->
  Forall closed_planar cd -> Forall closed_planar cd'.
Proof.
  rewrite add_bezier_spline_eq. simpl.
  destruct (_ <? 3)%nat; [by intros [= <-]|].
  intros H Hcd. apply bind_Ok_inv in H as (cs & Hcs & [= <-]).
  apply Forall_closed_planar_snoc; [done|].
  split; [done|]. simpl. by apply world_all_planar in Hcs.
Qed.

Lemma run_plan_closed_planar (data : contour_data) (scale : float) (step : Z)
    (plan : list (nat * bool)) :
  forall cd g,
    run_plan blank data scale step plan cd = Ok g ->
    Forall closed_planar cd -> Forall closed_planar g.
Proof.
  induction plan as [|[k r] rest IH]; simpl; intros cd g H Hcd.
  - by injection H as <-.
  - apply bind_Ok_inv in H as (c & _ & H).
    apply bind_Ok_inv in H as (cd' & Hadd & H).
    apply (IH cd' g H). by apply add_bezier_spline_closed_planar in Hadd.
Qed.

End ClosedPlanar.

(** X4. Every spline of a curve group is marked cyclic, and each of its points
    has the third coordinate [0.0] and the fourth [1.0]: the group is a
    set of closed curves in one plane. *)
Theorem curve_group_closed_planar (blank : co) (data : contour_data)
    (scale : float) (step : Z) (g : curve) :
  build_curves blank data scale step = Ok g ->
  Forall closed_planar g.
Proof.
  rewrite build_curves_eq. intros H.
  by apply run_plan_closed_planar in H.
Qed.

(** The group of the three nested contours. *)
Lemma curve_group_closed_planar_witness :
  exists g, build_curves zero_co three_levels 2 1 = Ok g
            /\ Forall closed_planar g.
Proof.
  eexists. split; [vm_compute; reflexivity|].
  apply (curve_group_closed_planar zero_co three_levels 2 1).
  vm_compute. reflexivity.
Defined.

(** ** The coordinates of the points Blender allocates *)

(** X5. The result of the curve builder and of a whole run is the same for
    any coordinates the freshly allocated points of a spline may carry:
    the loop assigns every point that [spline.points.add] allocates, so
    none of them keeps its initial coordinates. *)
Theorem allocated_points_all_assigned (blank blank' : co) (scale : float)
    (step : Z) :
  (forall w h pts reverse cd,
     add_bezier_spline blank w h scale pts reverse step cd =
     add_bezier_spline blank' w h scale pts reverse step cd)
  /\ forall data,
       build_curves blank data scale step = build_curves blank' data scale step.
Proof.
  split.
  - intros. apply add_bezier_spline_blank.
  - intros data. apply build_curves_blank.
Qed.

(** ** The curve group in closed form *)

Section ClosedForm.

Variable blank : co.
Variables (data : contour_data) (scale : float) (step : Z).

Local Abbreviation run := (run_plan blank data scale step).
Local Abbreviation valid :=
  (fun kr : nat * bool => (kr.1 < length (contours data))%nat).
Local Abbreviation planned := (planned_curve data scale step).

Lemma planned_curve_lookup (k : nat) (r : bool) (c : contour) :
  contours data !! k = Some c ->
  planned (k, r) =
  curve_of (width data) (height data) scale step (points c) r.
Proof. intros Hc. unfold planned_curve. simpl. by rewrite Hc. Qed.

Lemma run_plan_closed_form (plan : list (nat * bool)) :
  width data <> 1 -> height data <> 1 -> coordinates_in_range data ->
  Forall valid plan ->
  forall cd, run plan cd = Ok (cd ++ omap planned plan).
Proof.
  intros Hw Hh Hdata.
  induction 1 as [|[k r] rest Hk _ IH]; intros cd; simpl.
  - by rewrite app_nil_r.
  - destruct (getitem_lt (contours data) k Hk) as (c & -> & Hc). simpl.
    rewrite add_bezier_spline_Ok
      by eauto using coordinates_in_range_lookup.
    simpl. rewrite IH.
    rewrite (planned_curve_lookup k r c Hc). unfold curve_of.
    destruct (_ <? 3)%nat; [done|]. by rewrite <- app_assoc.
Qed.

Lemma run_plan_Ok_closed_form (plan : list (nat * bool)) :
  forall cd g, run plan cd = Ok g -> g = cd ++ omap planned plan.
Proof.
  induction plan as [|[k r] rest IH]; intros cd g; simpl.
  - intros [= <-]. by rewrite app_nil_r.
  - intros H. apply bind_Ok_inv in H as (c & Hc & H).
    apply getitem_Ok in Hc.
    apply bind_Ok_inv in H as (cd' & Hadd & H). apply IH in H as ->.
    rewrite (planned_curve_lookup k r c Hc). unfold curve_of.
    rewrite add_bezier_spline_eq in Hadd. simpl in Hadd.
    destruct (_ <? 3)%nat; [by injection Hadd as <-|].
    apply bind_Ok_inv in Hadd as (cs & Hcs & [= <-]).
    apply world_all_Ok_inv in Hcs as [-> _]. by rewrite <- app_assoc.
Qed.

Lemma run_plan_nothing_planned (plan : list (nat * bool)) :
  Forall valid plan -> omap planned plan = [] ->
  forall cd, run plan cd = Ok cd.
Proof.
  induction 1 as [|[k r] rest Hk _ IH]; intros Hnone cd; simpl; [done|].
  destruct (getitem_lt (contours data) k Hk) as (c & -> & Hc). simpl.
  simpl in Hnone. rewrite (planned_curve_lookup k r c Hc) in Hnone.
  rewrite add_bezier_spline_eq. unfold curve_of in Hnone. simpl.
  destruct (_ <? 3)%nat; [|done]. simpl. by apply IH.
Qed.

Lemma run_plan_zero_division (plan : list (nat * bool)) :
  width data = 1 \/ height data = 1 -> coordinates_in_range data ->
  Forall valid plan -> omap planned plan <> [] ->
  forall cd, run plan cd = Raise ZeroDivisionError.
Proof.
  intros Hwh Hdata.
  induction 1 as [|[k r] rest Hk _ IH]; intros Hsome cd; simpl; [done|].
  destruct (getitem_lt (contours data) k Hk) as (c & -> & Hc). simpl.
  simpl in Hsome. rewrite (planned_curve_lookup k r c Hc) in Hsome.
  rewrite add_bezier_spline_eq. unfold curve_of in Hsome. simpl.
  destruct (Nat.ltb_spec
              (length (every_nth step (if r then rev (points c) else points c))) 3)
    as [Hlt|Hge]; simpl.
  - by apply IH.
  - rewrite world_all_zero_division; [done | done | |].
    + intros Hnil. rewrite Hnil in Hge. simpl in Hge. lia.
    + eauto using Forall_prepared, coordinates_in_range_lookup.
Qed.

End ClosedForm.

Lemma build_curves_planned (blank : co) (data : contour_data)
    (scale : float) (step : Z) :
  width data <> 1 -> height data <> 1 -> coordinates_in_range data ->
  build_curves blank data scale step = Ok (planned_curves data scale step).
Proof.
  intros Hw Hh Hdata. rewrite build_curves_eq.
  by rewrite run_plan_closed_form by auto using emission_plan_valid.
Qed.

Lemma planned_curves_In (data : contour_data) (scale : float) (step : Z)
    (s : spline) :
  In s (planned_curves data scale step) <->
  exists k r c,
    In (k, r) (emission_plan data)
    /\ contours data !! k = Some c
    /\ curve_of (width data) (height data) scale step (points c) r = Some s.
Proof.
  unfold planned_curves.
  rewrite <- list_elem_of_In, list_elem_of_omap. split.
  - intros ([k r] & Hin & Hs). apply list_elem_of_In in Hin.
    unfold planned_curve in Hs. simpl in Hs.
    destruct (contours data !! k) as [c|] eqn:Hc; [|done].
    exists k, r, c. done.
  - intros (k & r & c & Hin & Hc & Hs). exists (k, r).
    split; [by apply list_elem_of_In|].
    by rewrite (planned_curve_lookup data scale step k r c Hc).
Qed.

(** X6. A run that returns has built the list of the splines of the plan
    entries that are not degenerate, in the order of the plan, so that the
    spline of a top-level contour is followed by those of its holes before
    the next top-level contour comes; a spline is in that list exactly
    when it is the spline of some plan entry.  The run returns for a width
    and height other than [1] and coordinates within the range of the
    floats. *)
Theorem curve_group_closed_form (blank : co) (data : contour_data)
    (scale : float) (step : Z) :
  (forall g,
     build_curves blank data scale step = Ok g ->
     g = planned_curves data scale step)
  /\ (width data <> 1 -> height data <> 1 -> coordinates_in_range data ->
      build_curves blank data scale step = Ok (planned_curves data scale step))
  /\ forall s : spline,
       In s (planned_curves data scale step) <->
       exists k r c,
         In (k, r) (emission_plan data)
         /\ contours data !! k = Some c
         /\ curve_of (width data) (height data) scale step (points c) r
            = Some s.
Proof.
  split; [|split].
  - intros g H. rewrite build_curves_eq in H.
    by apply run_plan_Ok_closed_form in H.
  - apply build_curves_planned.
  - intros s. apply planned_curves_In.
Qed.

(** The three nested contours: the square, then its hole. *)
Lemma curve_group_closed_form_witness :
  build_curves zero_co three_levels 2 1 = Ok (planned_curves three_levels 2 1).
Proof.
  apply (curve_group_closed_form zero_co three_levels 2 1);
    [vm_compute; discriminate | vm_compute; discriminate | in_range].
Defined.

(** X7. When no plan entry has a spline to build the run returns an empty
    curve group, whatever the width and height are; when the width or the
    height is [1], the coordinates are within the range of the floats and
    some plan entry has a spline to build, the run raises the division by
    zero. *)
Theorem run_fails_iff_curve_at_unit_size (blank : co) (data : contour_data)
    (scale : float) (step : Z) :
  (planned_curves data scale step = [] ->
   build_curves blank data scale step = Ok [])
  /\ (width data = 1 \/ height data = 1 -> coordinates_in_range data ->
      planned_curves data scale step <> [] ->
      build_curves blank data scale step = Raise ZeroDivisionError).
Proof.
  rewrite build_curves_eq. split.
  - intros Hnone.
    by apply run_plan_nothing_planned; [apply emission_plan_valid|].
  - intros Hwh Hdata Hsome.
    by apply run_plan_zero_division; [| |apply emission_plan_valid|].
Qed.

(** Scenario D with step 3 has nothing to build; the set of width and
    height one has a child of three points to build. *)
Lemma run_fails_iff_curve_at_unit_size_witness :
  build_curves zero_co scenario_D 2 3 = Ok []
  /\ build_curves zero_co unit_size 2 1 = Raise ZeroDivisionError.
Proof.
  split.
  - apply (run_fails_iff_curve_at_unit_size zero_co scenario_D 2 3).
    vm_compute. reflexivity.
  - apply (run_fails_iff_curve_at_unit_size zero_co unit_size 2 1).
    + left. reflexivity.
    + in_range.
    + vm_compute. discriminate.
Defined.

(** ** Images too small for the border margin *)

Lemma touches_border_narrow (c : contour) (w h : Z) :
  w <= 2 * default_margin + 1 \/ h <= 2 * default_margin + 1 ->
  points c <> [] ->
  touches_border c w h default_margin = true.
Proof.
  intros Hsmall Hne. unfold touches_border.
  apply touches_border_points_iff.
  destruct (points c) as [|p rest]; [done|].
  exists p. split; [by left|]. unfold near_border, default_margin in *. lia.
Qed.

(** X8. With the margin of 2 a point is clear of the border only if the width
    and the height are at least 6.  So for a width or height of at most 5
    a contour set whose top-level contours all have a point yields an
    empty curve group, and no exception. *)
Theorem small_image_empty_group (blank : co) (data : contour_data)
    (scale : float) (step : Z) :
  width data <= 5 \/ height data <= 5 ->
  (forall c, In c (contours data) -> parent c = -1 -> points c <> []) ->
  top_indices data = []
  /\ build_curves blank data scale step = Ok [].
Proof.
  intros Hsmall Hne.
  assert (Htop : eligible_indices data = []).
  { unfold eligible_indices.
    induction (seq 0 (length (contours data))) as [|i rest IH]; [done|].
    simpl. destruct (eligible data i) eqn:Hi; [|done].
    apply eligible_at_Some in Hi as (c & Hc & Hp & Ht).
    rewrite touches_border_narrow in Ht; [done | by unfold default_margin |].
    apply Hne; [|done]. apply list_elem_of_In. by eapply list_elem_of_lookup_2. }
  split; [by rewrite top_indices_eq|].
  rewrite build_curves_eq. unfold emission_plan. by rewrite Htop.
Qed.

(** A square in an image of five by five pixels. *)
Lemma small_image_empty_group_witness :
  build_curves zero_co
    (ContourData 5 5 [Contour [(2, 2); (2, 3); (3, 3); (3, 2)] (-1)]) 2 1 = Ok [].
Proof.
  apply (small_image_empty_group zero_co
           (ContourData 5 5 [Contour [(2, 2); (2, 3); (3, 3); (3, 2)] (-1)]) 2 1).
  - left. simpl. lia.
  - intros c [<- | []] _. discriminate.
Defined.

(** ** No contour is drawn twice *)

Section PlanIndices.

Variable data : contour_data.

Local Abbreviation block :=
  (fun i : nat => (i, false) :: map (fun j : nat => (j, true)) (children data i)).

Lemma block_indices (i : nat) : map fst (block i) = i :: children data i.
Proof.
  simpl. f_equal. rewrite map_map. simpl. apply map_id.
Qed.

Lemma eligible_not_child (i i' : nat) :
  eligible data i = true -> ~ In i (children data i').
Proof.
  intros Hi Hin. apply eligible_at_Some in Hi as (c & Hc & Hp & _).
  apply children_In in Hin as (c' & Hc' & Hp'). simplify_eq. lia.
Qed.

Lemma child_one_parent (j i i' : nat) :
  In j (children data i) -> In j (children data i') -> i = i'.
Proof.
  intros Hi Hi'. apply children_In in Hi as (c & Hc & Hp).
  apply children_In in Hi' as (c' & Hc' & Hp'). simplify_eq. lia.
Qed.

Lemma flat_map_block_indices (l : list nat) (x : nat) :
  In x (map fst (flat_map block l)) ->
  exists i, In i l /\ (x = i \/ In x (children data i)).
Proof.
  intros Hx. apply in_map_iff in Hx as ([k r] & <- & Hin).
  apply in_flat_map in Hin as (i & Hi & Hin). exists i. split; [done|].
  destruct Hin as [[= <- <-] | Hin]; [by left|].
  apply in_map_iff in Hin as (j & [= <- <-] & Hj). by right.
Qed.

Lemma flat_map_block_NoDup (l : list nat) :
  List.NoDup l -> (forall i, In i l -> eligible data i = true) ->
  List.NoDup (map fst (flat_map block l)).
Proof.
  induction 1 as [|i rest Hnotin' Hnd IH]; intros Hel; [constructor|].
  cbn [flat_map]. rewrite map_app, block_indices.
  apply List.NoDup_app.
  - constructor.
    + apply eligible_not_child, Hel. by left.
    + unfold children. apply List.NoDup_filter, seq_NoDup.
  - apply IH. intros i' Hi'. apply Hel. by right.
  - intros x Hx HM.
    apply flat_map_block_indices in HM as (i' & Hi' & Hx').
    assert (Hel' : eligible data i' = true) by (apply Hel; by right).
    destruct Hx as [<- | Hx], Hx' as [-> | Hx'].
    + done.
    + by apply (eligible_not_child i i'); [apply Hel; left|].
    + by apply (eligible_not_child i' i).
    + by rewrite (child_one_parent x i i') in Hnotin'.
Qed.

Lemma emission_plan_NoDup : List.NoDup (map fst (emission_plan data)).
Proof.
  apply flat_map_block_NoDup.
  - unfold eligible_indices. apply List.NoDup_filter, seq_NoDup.
  - intros i. apply eligible_indices_In.
Qed.

Lemma emission_plan_length :
  (length (emission_plan data) <= length (contours data))%nat.
Proof.
  assert (H : (length (map fst (emission_plan data))
               <= length (seq 0 (length (contours data))))%nat).
  { apply NoDup_incl_length; [apply emission_plan_NoDup|].
    intros k Hk. apply in_map_iff in Hk as ([k' r] & <- & Hin).
    apply in_seq. pose proof (emission_plan_valid data) as Hv.
    rewrite List.Forall_forall in Hv. specialize (Hv _ Hin). simpl in *. lia. }
  by rewrite length_map, length_seq in H.
Qed.

End PlanIndices.

Lemma run_plan_length (blank : co) (data : contour_data) (scale : float)
    (step : Z) (plan : list (nat * bool)) :
  forall cd g,
    run_plan blank data scale step plan cd = Ok g ->
    (length g <= length cd + length plan)%nat.
Proof.
  induction plan as [|[k r] rest IH]; simpl; intros cd g H.
  - injection H as <-. lia.
  - apply bind_Ok_inv in H as (c & _ & H).
    apply bind_Ok_inv in H as (cd' & Hadd & H). apply IH in H.
    apply add_bezier_spline_grows in Hadd as [-> | (s & -> & _)];
      rewrite ?length_app in H; simpl in H; lia.
Qed.

(** X9. No contour has its curve built twice: the indices of the plan are all
    different, and a curve group has at most as many splines as the
    contour set has contours. *)
Theorem no_contour_drawn_twice (blank : co) (data : contour_data)
    (scale : float) (step : Z) :
  List.NoDup (map fst (emission_plan data))
  /\ forall g,
       build_curves blank data scale step = Ok g ->
       (length g <= length (contours data))%nat.
Proof.
  split; [apply emission_plan_NoDup|].
  intros g H. rewrite build_curves_eq in H.
  apply run_plan_length in H. pose proof (emission_plan_length data).
  simpl in H. lia.
Qed.

(** The two splines of the three nested contours. *)
Lemma no_contour_drawn_twice_witness :
  exists g, build_curves zero_co three_levels 2 1 = Ok g
            /\ (length g <= 3)%nat.
Proof.
  eexists. split; [vm_compute; reflexivity|].
  apply (no_contour_drawn_twice zero_co three_levels 2 1).
  vm_compute. reflexivity.
Defined.

(** ** Holes are not tested against the border *)

(** X10. The contour whose parent is an eligible top-level contour has its
    curve built, in reversed order, whenever enough of its points are left,
    whether or not it touches the border: only top-level contours are
    tested against the border.  (The coordinates of the set are taken
    within the range of the floats, so that the run returns.) *)
Theorem hole_built_wherever_it_lies (blank : co) (data : contour_data)
    (scale : float) (step : Z) (i j : nat) (outer c : contour) :
  width data <> 1 -> height data <> 1 -> coordinates_in_range data ->
  contours data !! i = Some outer -> parent outer = -1 ->
  touches_border outer (width data) (height data) default_margin = false ->
  contours data !! j = Some c -> parent c = Z.of_nat i ->
  2 * Z.max 1 step < Z.of_nat (length (points c)) ->
  exists g,
    build_curves blank data scale step = Ok g
    /\ In (Spline
             (map (to_world (width data) (height data) scale)
                (every_nth step (rev (points c))))
             true) g.
Proof.
  intros Hw Hh Hdata Hi Hpi Hti Hj Hpj Hlong.
  rewrite build_curves_planned by done.
  eexists. split; [done|]. apply planned_curves_In. exists j, true, c.
  split; [|split; [done|]].
  - apply emission_plan_In. right. split; [done|]. exists i. split.
    + apply eligible_at_Some. eauto.
    + apply child_of_Some. eauto.
  - unfold curve_of.
    destruct (Nat.ltb_spec (length (every_nth step (rev (points c)))) 3)
      as [Hlt|_]; [|done].
    apply every_nth_short in Hlt. rewrite length_rev in Hlt. lia.
Qed.

(** A hole with a point on the left border of the image, inside a square
    that is clear of the border. *)
Lemma hole_built_wherever_it_lies_witness :
  touches_border (Contour [(0, 4); (4, 5); (5, 5)] 0) 10 10 default_margin = true
  /\ exists g,
       build_curves zero_co border_hole 2 1 = Ok g
       /\ In (Spline (map (to_world 10 10 2) [(5, 5); (4, 5); (0, 4)]) true) g.
Proof.
  split; [reflexivity|].
  apply (hole_built_wherever_it_lies zero_co border_hole 2 1 0 1
           (Contour [(3, 3); (3, 6); (6, 6); (6, 3)] (-1))
           (Contour [(0, 4); (4, 5); (5, 5)] 0)).
  - simpl. lia.
  - simpl. lia.
  - in_range.
  - reflexivity.
  - reflexivity.
  - reflexivity.
  - reflexivity.
  - reflexivity.
  - simpl. lia.
Defined.

(** ** The contour records written by the first stage *)

Section Collect.

Variable h : list hierarchy_row.

Local Abbreviation record :=
  (fun (pts : list point) (row : hierarchy_row) => Contour pts (h_parent row)).

Lemma collect_loop_Ok (cnts : list (list point)) :
  forall (n : nat) (acc : list contour),
    (n + length cnts <= length h)%nat ->
    collect_loop h (enumerate_from n cnts) acc =
    Ok (acc ++ zip_with record cnts (drop n h)).
Proof.
  induction cnts as [|cnt rest IH]; intros n acc Hlen; simpl.
  - by rewrite app_nil_r.
  - simpl in Hlen.
    destruct (getitem_lt h n) as (row & -> & Hrow); [lia|]. simpl.
    rewrite IH by lia. rewrite (drop_S h row n Hrow). simpl.
    by rewrite <- app_assoc.
Qed.

Lemma collect_loop_IndexError (cnts : list (list point)) :
  forall (n : nat) (acc : list contour),
    (n <= length h < n + length cnts)%nat ->
    collect_loop h (enumerate_from n cnts) acc = Raise IndexError.
Proof.
  induction cnts as [|cnt rest IH]; intros n acc Hlen; simpl in *; [lia|].
  destruct (decide (n < length h)%nat) as [Hn|Hn].
  - destruct (getitem_lt h n Hn) as (row & -> & _). simpl.
    apply IH. lia.
  - unfold getitem. rewrite lookup_ge_None_2 by lia. done.
Qed.

Lemma collect_contours_Ok (shape : Z * Z) (cnts : list (list point)) :
  (length cnts <= length h)%nat ->
  collect_contours shape cnts h =
  Ok (ContourData shape.2 shape.1 (zip_with record cnts h)).
Proof.
  intros Hlen. unfold collect_contours, enumerate.
  by rewrite collect_loop_Ok.
Qed.

Lemma collected_lookup (cnts : list (list point)) (i : nat) (c : contour) :
  zip_with record cnts h !! i = Some c <->
  exists row, cnts !! i = Some (points c) /\ h !! i = Some row
              /\ parent c = h_parent row.
Proof.
  rewrite lookup_zip_with_Some. split.
  - intros (pts & row & -> & Hpts & Hrow). eauto.
  - intros (row & Hpts & Hrow & Hp). exists (points c), row.
    destruct c as [pts p]. simpl in *. by subst p.
Qed.

End Collect.

(** X11. The records of [contours.json] keep the positions of the contours:
    when the hierarchy has a row for every contour, record [i] holds the
    points of contour [i] and the parent entry of row [i], the width is
    the number of columns and the height the number of rows; when a row is
    missing the loop stops with [IndexError]. *)
Theorem collected_contours_keep_index (shape : Z * Z)
    (cnts : list (list point)) (h : list hierarchy_row) :
  ((length cnts <= length h)%nat ->
   exists data,
     collect_contours shape cnts h = Ok data
     /\ width data = shape.2 /\ height data = shape.1
     /\ length (contours data) = length cnts
     /\ forall (i : nat) (c : contour),
          contours data !! i = Some c <->
          exists row, cnts !! i = Some (points c) /\ h !! i = Some row
                      /\ parent c = h_parent row)
  /\ ((length h < length cnts)%nat ->
      collect_contours shape cnts h = Raise IndexError).
Proof.
  split.
  - intros Hlen. eexists. split; [by apply collect_contours_Ok|].
    simpl. split; [done|]. split; [done|]. split.
    + rewrite length_zip_with. lia.
    + intros i c. apply collected_lookup.
  - intros Hlen. unfold collect_contours, enumerate.
    rewrite collect_loop_IndexError; [done | lia].
Qed.

(** Two contours with their rows, and two contours with one row. *)
Lemma collected_contours_keep_index_witness :
  (exists data,
     collect_contours (10, 12) [[(3, 3); (3, 6); (6, 6)]; [(4, 4); (4, 5)]]
       [HierarchyRow (-1) (-1) 1 (-1); HierarchyRow (-1) (-1) (-1) 0] = Ok data
     /\ width data = 12 /\ height data = 10
     /\ length (contours data) = 2%nat)
  /\ collect_contours (10, 12) [[(3, 3); (3, 6); (6, 6)]; [(4, 4); (4, 5)]]
       [HierarchyRow (-1) (-1) 1 (-1)] = Raise IndexError.
Proof.
  split.
  - destruct (collected_contours_keep_index (10, 12)
                [[(3, 3); (3, 6); (6, 6)]; [(4, 4); (4, 5)]]
                [HierarchyRow (-1) (-1) 1 (-1); HierarchyRow (-1) (-1) (-1) 0])
      as [H _].
    destruct H as (data & Hd & Hw & Hh & Hl & _); [simpl; lia|].
    exists data. done.
  - apply (collected_contours_keep_index (10, 12)
             [[(3, 3); (3, 6); (6, 6)]; [(4, 4); (4, 5)]]
             [HierarchyRow (-1) (-1) 1 (-1)]).
    simpl. lia.
Defined.

(** ** The curve group of the pipeline *)

Lemma curve_of_step_1 (w h : Z) (scale : float) (pts : list point)
    (reverse : bool) (s : spline) :
  curve_of w h scale 1 pts reverse = Some s <->
  (3 <= length pts)%nat
  /\ s = Spline (map (to_world w h scale) (if reverse then rev pts else pts)) true.
Proof.
  unfold curve_of. rewrite every_nth_le_1 by lia.
  assert (Hlen : length (if reverse then rev pts else pts) = length pts)
    by (by destruct reverse; rewrite ?length_rev).
  rewrite Hlen. destruct (Nat.ltb_spec (length pts) 3) as [Hlt|Hge]; split.
  - discriminate.
  - intros [Hge _]. lia.
  - intros [= <-]. done.
  - intros [_ ->]. done.
Qed.

Lemma collected_in_range (cnts : list (list point)) :
  Forall (Forall in_float_range) cnts ->
  forall h : list hierarchy_row,
    Forall (fun c => Forall in_float_range (points c))
      (zip_with (fun pts row => Contour pts (h_parent row)) cnts h).
Proof.
  induction 1 as [|pts rest Hpts _ IH]; intros [|row h]; simpl;
    try constructor; auto.
Qed.

(** X12. When [cv2.findContours] finds no contour the pipeline stops with
    the [RuntimeError] of the first stage.  Otherwise, for an image with
    more than one row and more than one column, a hierarchy with a row for
    every contour and coordinates within the range of the floats, the
    pipeline returns the curve group of the collected records for the
    scale 2.0 and the step 1; with that step nothing is subsampled, so the
    spline of a contour holds all its points.  The splines of the group are
    those of the contours of at least three points whose parent entry is
    [-1] and which have no point within 2 pixels of the border, with the
    points in their order, and those of the contours of at least three
    points whose parent entry is the position of such a contour, with the
    points in reversed order. *)
Theorem pipeline_keeps_every_point (blank : co) (shape : Z * Z)
    (cnts : list (list point)) (h : list hierarchy_row) :
  pipeline_curves blank shape cnts None = Raise RuntimeError
  /\ (shape.1 <> 1 -> shape.2 <> 1 -> (length cnts <= length h)%nat ->
      Forall (Forall in_float_range) cnts ->
      exists data,
        contours_json shape cnts (Some h) = Ok data
        /\ pipeline_curves blank shape cnts (Some h) =
           Ok (planned_curves data 2 1)
        /\ (forall pts reverse,
              curve_of (width data) (height data) 2 1 pts reverse =
              if (length pts <? 3)%nat then None
              else Some (Spline
                           (map (to_world shape.2 shape.1 2)
                              (if reverse then rev pts else pts))
                           true))
        /\ forall s : spline,
             In s (planned_curves data 2 1) <->
             exists i pts row,
               cnts !! i = Some pts /\ h !! i = Some row
               /\ (3 <= length pts)%nat
               /\ ((h_parent row = -1
                    /\ touches_border_points pts shape.2 shape.1 2 = false
                    /\ s = Spline (map (to_world shape.2 shape.1 2) pts) true)
                   \/
                   (exists k ptsk rowk,
                      h_parent row = Z.of_nat k
                      /\ cnts !! k = Some ptsk /\ h !! k = Some rowk
                      /\ h_parent rowk = -1
                      /\ touches_border_points ptsk shape.2 shape.1 2 = false
                      /\ s = Spline (map (to_world shape.2 shape.1 2) (rev pts))
                               true))).
Proof.
  split; [done|].
  intros Hrows Hcols Hlen Hrange. unfold pipeline_curves, contours_json.
  rewrite collect_contours_Ok by done. simpl.
  set (data := ContourData _ _ _).
  exists data. split; [done|]. split.
  { apply build_curves_planned; [done | done |]. by apply collected_in_range. }
  split.
  { intros pts reverse. unfold curve_of. rewrite every_nth_le_1 by lia.
    by destruct reverse; rewrite ?length_rev. }
  intros s. rewrite planned_curves_In. split.
  - intros (i & r & c & Hin & Hc & Hs).
    apply curve_of_step_1 in Hs as [Hge ->].
    pose proof Hc as Hc0.
    apply collected_lookup in Hc as (row & Hpts & Hrow & Hp).
    exists i, (points c), row. split; [done|]. split; [done|]. split; [done|].
    apply emission_plan_In in Hin as [[-> Hi] | (-> & k & Hk & Hi)].
    + left. apply eligible_at_Some in Hi as (c' & Hc' & Hp' & Ht').
      rewrite Hc0 in Hc'. injection Hc' as <-.
      split; [congruence|]. split; [exact Ht' | done].
    + right. apply child_of_Some in Hi as (c' & Hc' & Hpc').
      rewrite Hc0 in Hc'. injection Hc' as <-.
      apply eligible_at_Some in Hk as (ck & Hck & Hpk & Htk).
      apply collected_lookup in Hck as (rowk & Hptsk & Hrowk & Hpk').
      exists k, (points ck), rowk.
      split; [congruence|]. split; [done|]. split; [done|].
      split; [congruence|]. split; [exact Htk | done].
  - intros (i & pts & row & Hpts & Hrow & Hge & Hcase).
    assert (Hc : contours data !! i = Some (Contour pts (h_parent row))).
    { apply collected_lookup. exists row. done. }
    destruct Hcase as [(Hp & Ht & ->) | (k & ptsk & rowk & Hp & Hptsk & Hrowk
                                          & Hpk & Htk & ->)].
    + exists i, false, (Contour pts (h_parent row)).
      split; [|split; [done|]].
      * apply emission_plan_In. left. split; [done|].
        apply eligible_at_Some. eexists. split; [done|]. done.
      * apply curve_of_step_1. done.
    + exists i, true, (Contour pts (h_parent row)).
      split; [|split; [done|]].
      * apply emission_plan_In. right. split; [done|]. exists k. split.
        -- apply eligible_at_Some. exists (Contour ptsk (h_parent rowk)).
           split; [|done]. apply collected_lookup. exists rowk. done.
        -- apply child_of_Some. eexists. split; [done|]. done.
      * apply curve_of_step_1. done.
Qed.

(** A square and its hole as [cv2.findContours] reports them. *)
Lemma pipeline_keeps_every_point_witness :
  exists data,
    pipeline_curves zero_co (10, 10)
      [[(3, 3); (3, 6); (6, 6); (6, 3)]; [(4, 4); (4, 5); (5, 5)]]
      (Some [HierarchyRow (-1) (-1) 1 (-1); HierarchyRow (-1) (-1) (-1) 0])
    = Ok (planned_curves data 2 1)
    /\ In (Spline (map (to_world 10 10 2) [(5, 5); (4, 5); (4, 4)]) true)
         (planned_curves data 2 1).
Proof.
  destruct (pipeline_keeps_every_point zero_co (10, 10)
              [[(3, 3); (3, 6); (6, 6); (6, 3)]; [(4, 4); (4, 5); (5, 5)]]
              [HierarchyRow (-1) (-1) 1 (-1); HierarchyRow (-1) (-1) (-1) 0])
    as [_ H].
  destruct H as (data & _ & Hg & _ & Hin);
    [simpl; lia | simpl; lia | simpl; lia | in_range |].
  exists data. split; [done|]. apply Hin.
  exists 1%nat, [(4, 4); (4, 5); (5, 5)], (HierarchyRow (-1) (-1) (-1) 0).
  split; [done|]. split; [done|]. split; [simpl; lia|]. right.
  exists 0%nat, [(3, 3); (3, 6); (6, 6); (6, 3)], (HierarchyRow (-1) (-1) 1 (-1)).
  done.
Defined.
